(** * Simplify scraper: crawl-and-extract pipeline

    A shallow embedding of [parse_simplify.py]: the funding normaliser
    ([extract_funding]), the listing extractor and its persistence step
    ([grab_offer_info]), the login retry loop ([login]) and the scroll
    loop ([scroll_and_load_jobs]), followed by the properties the
    specification states about them.

    Text is modelled as [string] whose characters are code points below
    256; exceptions are values of [pyexn] carried by the [result] type. *)

From Stdlib Require Import ZArith Ascii String List Lia.
From Stdlib Require Import Floats.SpecFloat.
From stdpp Require Import base option list strings gmap.

Local Open Scope string_scope.
Local Open Scope Z_scope.

(* ===================================================================== *)
(** ** Exceptions and fallible computations *)
(* ===================================================================== *)

(** The exception classes that the scraper can meet. *)
Inductive pyexn : Type :=
| AttributeError            (* method call on [None] *)
| TypeError                 (* subscript on [None] *)
| KeyError                  (* missing tag attribute *)
| IndexError                (* list index out of range *)
| ValueError                (* [int] / [float] of an invalid literal *)
| OverflowError             (* [int] of an infinite float *)
| NoSuchElementException    (* selenium [find_element] *)
| TimeoutException          (* selenium [WebDriverWait.until] *)
| ElementNotInteractableException
| WebDriverException        (* any other selenium failure *)
| UniqueViolation           (* psycopg2.errors.UniqueViolation *)
| InFailedSqlTransaction    (* statement on an aborted transaction *)
| DatabaseError.            (* any other psycopg2 failure *)

#[global]
Instance pyexn_eq_dec : EqDecision pyexn.
Proof. solve_decision. Defined.

Inductive result (A : Type) : Type :=
| Ok (a : A)
| Raise (e : pyexn).
Arguments Ok {A} a.
Arguments Raise {A} e.

Definition rbind {A B} (r : result A) (k : A -> result B) : result B :=
  match r with
  | Ok a => k a
  | Raise e => Raise e
  end.

Notation "'do' x <- r ; k" := (rbind r (fun x => k))
  (at level 10, x name, r at level 100, k at level 200).

(** [o.attr] where [o] may be [None]: an [AttributeError]. *)
Definition deref {A} (o : option A) : result A :=
  match o with
  | Some a => Ok a
  | None => Raise AttributeError
  end.

(** [l[i]] for a non-negative literal index [i]. *)
Definition index {A} (l : list A) (i : nat) : result A :=
  match l !! i with
  | Some a => Ok a
  | None => Raise IndexError
  end.

(* ===================================================================== *)
(** ** Character classes and string primitives of Python *)
(* ===================================================================== *)

Definition code (c : ascii) : Z := Z.of_nat (nat_of_ascii c).

Definition in_range (lo hi : Z) (c : ascii) : bool :=
  (lo <=? code c) && (code c <=? hi).

(** ASCII decimal digit. *)
Definition is_digit (c : ascii) : bool := in_range 48 57 c.

Definition digit_val (c : ascii) : Z := code c - 48.

(** [str.isalnum] on one character: letters, decimal digits and the
    numeric characters of the first 256 code points. *)
Definition isalnum (c : ascii) : bool :=
  is_digit c || in_range 65 90 c || in_range 97 122 c
  || (code c =? 170) || (code c =? 178) || (code c =? 179)
  || (code c =? 181) || (code c =? 185) || (code c =? 186)
  || in_range 188 190 c
  || in_range 192 214 c || in_range 216 246 c || in_range 248 255 c.

(** [str.isspace] on one character. *)
Definition isspace (c : ascii) : bool :=
  in_range 9 13 c || in_range 28 32 c || (code c =? 133) || (code c =? 160).

Definition ascii_eqb (a b : ascii) : bool := Ascii.eqb a b.

(** Case-insensitive comparison with a lower-case ASCII letter. *)
Definition lower (c : ascii) : ascii :=
  if in_range 65 90 c then ascii_of_nat (nat_of_ascii c + 32) else c.

Fixpoint lower_str (s : string) : string :=
  match s with
  | EmptyString => EmptyString
  | String c s' => String (lower c) (lower_str s')
  end.

Fixpoint filter_str (p : ascii -> bool) (s : string) : string :=
  match s with
  | EmptyString => EmptyString
  | String c s' => if p c then String c (filter_str p s') else filter_str p s'
  end.

Fixpoint lstrip (sp : ascii -> bool) (s : string) : string :=
  match s with
  | EmptyString => EmptyString
  | String c s' => if sp c then lstrip sp s' else s
  end.

(** Drops trailing blanks: a character is kept when it is not a blank
    or when something is kept after it. *)
Fixpoint rstrip (sp : ascii -> bool) (s : string) : string :=
  match s with
  | EmptyString => EmptyString
  | String c s' =>
      match rstrip sp s' with
      | EmptyString => if sp c then EmptyString else String c EmptyString
      | r => String c r
      end
  end.

(** [s.strip()]. *)
Definition strip (s : string) : string := rstrip isspace (lstrip isspace s).

(** [sub in s]. *)
Fixpoint contains (sub s : string) : bool :=
  String.prefix sub s ||
  match s with
  | EmptyString => false
  | String _ s' => contains sub s'
  end.

(** [s.replace(old, new)] for a non-empty [old]: non-overlapping
    occurrences, leftmost first; [skip] counts the characters of an
    occurrence still to be dropped. *)
Fixpoint replace_from (old new : string) (skip : nat) (s : string) : string :=
  match s with
  | EmptyString => EmptyString
  | String c s' =>
      match skip with
      | S k => replace_from old new k s'
      | O =>
          if String.prefix old s
          then new ++ replace_from old new (Nat.pred (String.length old)) s'
          else String c (replace_from old new O s')
      end
  end.

Definition replace (old new s : string) : string := replace_from old new O s.

(* ===================================================================== *)
(** ** Numeric literals: [int(str)] and [float(str)] *)
(* ===================================================================== *)

(** The blanks that [int] and [float] skip around a literal: the C
    locale's white space, and the two further space characters below
    256, which the interpreter first turns into a blank. *)
Definition num_space (c : ascii) : bool :=
  in_range 9 13 c || (code c =? 32) || (code c =? 133) || (code c =? 160).

(** A run of decimal digits in which single underscores may separate
    two digits; returns the digits and the unread rest. *)
Fixpoint digit_run (s : string) : list Z * string :=
  match s with
  | EmptyString => ([], s)
  | String c s' =>
      if is_digit c then
        match s' with
        | String u (String d _ as t) =>
            if ascii_eqb u "_" && is_digit d
            then let (ds, r) := digit_run t in (digit_val c :: ds, r)
            else let (ds, r) := digit_run s' in (digit_val c :: ds, r)
        | _ => let (ds, r) := digit_run s' in (digit_val c :: ds, r)
        end
      else ([], s)
  end.

Definition decimal_value (ds : list Z) : Z :=
  fold_left (fun acc d => 10 * acc + d) ds 0.

(** An optional sign: [true] for a minus. *)
Definition read_sign (s : string) : bool * string :=
  match s with
  | String c r =>
      if ascii_eqb c "+" then (false, r)
      else if ascii_eqb c "-" then (true, r)
      else (false, s)
  | EmptyString => (false, s)
  end.

(** The interpreter's default limit on the number of digits of a
    literal that [int] converts ([sys.get_int_max_str_digits()]). *)
Definition int_max_str_digits : nat := 4300.

(** [int(s)] for a string [s], base ten.  A literal of more digits
    than the limit is refused with [ValueError]; the sign, the blanks
    and the underscores do not count, leading zeros do. *)
Definition py_int (s : string) : result Z :=
  let (neg, body) := read_sign (rstrip num_space (lstrip num_space s)) in
  match digit_run body with
  | ([], _) => Raise ValueError
  | (ds, EmptyString) =>
      if (length ds <=? int_max_str_digits)%nat
      then Ok (if neg then - decimal_value ds else decimal_value ds)
      else Raise ValueError
  | (_, String _ _) => Raise ValueError
  end.

(** Python's [float] is an IEEE 754 binary64 number. *)
Definition prec : Z := 53.
Definition emax : Z := 1024.

Abbreviation float := spec_float.

(** The binary64 number nearest to [m * 10 ^ x] (ties to even), for a
    natural number [m]. *)
Definition float_of_decimal (neg : bool) (m x : Z) : float :=
  match m with
  | Zpos _ =>
      if 0 <=? x
      then binary_normalize prec emax (if neg then - (m * 10 ^ x) else m * 10 ^ x) 0 neg
      else
        let '(q, e, l) := SFdiv_core_binary prec emax m 0 (10 ^ (- x)) 0 in
        binary_round_aux prec emax neg q e l
  | _ => S754_zero neg
  end.

(** The exponent part of a float literal: nothing, or [e]/[E], an
    optional sign and a digit run that ends the literal. *)
Definition read_exponent (s : string) : option Z :=
  match s with
  | EmptyString => Some 0
  | String c r =>
      if ascii_eqb (lower c) "e" then
        let (neg, r') := read_sign r in
        match digit_run r' with
        | ([], _) => None
        | (es, EmptyString) =>
            Some (if neg then - decimal_value es else decimal_value es)
        | (_, String _ _) => None
        end
      else None
  end.

(** [float(s)] for a string [s]. *)
Definition py_float (s : string) : result float :=
  let (neg, body) := read_sign (rstrip num_space (lstrip num_space s)) in
  let name := lower_str body in
  if String.eqb name "inf" || String.eqb name "infinity" then Ok (S754_infinity neg)
  else if String.eqb name "nan" then Ok S754_nan
  else
    let (ip, r1) := digit_run body in
    let (fp, r2) :=
      match r1 with
      | String c r => if ascii_eqb c "." then digit_run r else ([], r1)
      | EmptyString => ([], r1)
      end in
    match (ip ++ fp)%list, read_exponent r2 with
    | [], _ => Raise ValueError
    | _, None => Raise ValueError
    | ds, Some e =>
        Ok (float_of_decimal neg (decimal_value ds) (e - Z.of_nat (length fp)))
    end.

(** [x * y] on floats. *)
Definition float_mul (x y : float) : float := SFmul prec emax x y.

(** A float literal of the source with an integral value, such as
    [1e3]. *)
Definition float_lit (n : Z) : float := binary_normalize prec emax n 0 false.

(** [int(x)] for a float [x]: truncation towards zero. *)
Definition int_of_float (x : float) : result Z :=
  match x with
  | S754_zero _ => Ok 0
  | S754_finite s m e =>
      let a := if 0 <=? e then Z.shiftl (Zpos m) e else Z.shiftr (Zpos m) (- e) in
      Ok (if s then - a else a)
  | S754_infinity _ => Raise OverflowError
  | S754_nan => Raise ValueError
  end.

(* ===================================================================== *)
(** ** Parsed markup and structural selectors *)
(* ===================================================================== *)

(** A parsed document: text nodes and elements.  [classes] is the
    element's [class] attribute, which the parser holds as a list of
    names; [attrs] are its other attributes. *)
#[warning="-register-all"]
Inductive node : Type :=
| Text (s : string)
| Elem (tag : string) (classes : list string)
       (attrs : list (string * string)) (kids : list node).

(** An element together with its ancestors, nearest first. *)
Definition handle : Type := list node * node.

(** [n.text]: the text nodes below [n], concatenated in document order. *)
Fixpoint text (n : node) : string :=
  match n with
  | Text s => s
  | Elem _ _ _ kids =>
      (fix texts (l : list node) : string :=
         match l with
         | [] => EmptyString
         | k :: l' => text k ++ texts l'
         end) kids
  end.

(** The elements of the subtree of [n] in document order, [n] first. *)
Fixpoint walk (ancs : list node) (n : node) : list handle :=
  match n with
  | Text _ => []
  | Elem _ _ _ kids =>
      (ancs, n) ::
      (fix walks (l : list node) : list handle :=
         match l with
         | [] => []
         | k :: l' => (walk (n :: ancs) k ++ walks l')%list
         end) kids
  end.

(** The elements strictly below a handle. *)
Definition descendants (h : handle) : list handle := tail (walk (fst h) (snd h)).

(** A compound selector [tag.c1.c2...]. *)
Record simple := Simple { sel_tag : string; sel_classes : list string }.

(** A selector of the source: a compound, optionally below an ancestor
    compound (the descendant combinator, as in [div.py-5 h1]). *)
Record selector := Selector { within : option simple; target : simple }.

Definition has_class (cls : list string) (c : string) : bool :=
  existsb (String.eqb c) cls.

Definition matches_simple (s : simple) (n : node) : bool :=
  match n with
  | Text _ => false
  | Elem t cls _ _ => String.eqb t (sel_tag s) && forallb (has_class cls) (sel_classes s)
  end.

Definition matches (sel : selector) (h : handle) : bool :=
  matches_simple (target sel) (snd h) &&
  match within sel with
  | None => true
  | Some a => existsb (matches_simple a) (fst h)
  end.

(** [h.select(sel)]. *)
Definition select (sel : selector) (h : handle) : list handle :=
  List.filter (matches sel) (descendants h).

(** [h.select_one(sel)]. *)
Definition select_one (sel : selector) (h : handle) : option handle :=
  head (select sel h).

Fixpoint assoc (k : string) (l : list (string * string)) : option string :=
  match l with
  | [] => None
  | (k', v) :: l' => if String.eqb k k' then Some v else assoc k l'
  end.

Definition has_attr (k v : string) (n : node) : bool :=
  match n with
  | Text _ => false
  | Elem _ _ attrs _ =>
      match assoc k attrs with
      | Some v' => String.eqb v v'
      | None => false
      end
  end.

(** [h.find(tag, attrs={k: v})]. *)
Definition find (tag k v : string) (h : handle) : option handle :=
  head (List.filter
          (fun d => matches_simple (Simple tag []) (snd d) && has_attr k v (snd d))
          (descendants h)).

(** [h[k]] on a tag that may be [None]. *)
Definition subscript (o : option handle) (k : string) : result string :=
  match o with
  | None => Raise TypeError
  | Some (_, Elem _ _ attrs _) =>
      match assoc k attrs with
      | Some v => Ok v
      | None => Raise KeyError
      end
  | Some (_, Text _) => Raise KeyError
  end.

Definition texts_of (hs : list handle) : list string :=
  List.map (fun h => text (snd h)) hs.

(** The selectors of the source. *)
Definition css (tag : string) (cls : list string) : selector :=
  Selector None (Simple tag cls).
Definition css_in (atag : string) (acls : list string)
                  (tag : string) (cls : list string) : selector :=
  Selector (Some (Simple atag acls)) (Simple tag cls).

Definition sel_badge : selector := css "div" ["bg-primary-light"].
Definition sel_mb3 : selector := css "div" ["mb-3"].
Definition sel_mt3 : selector := css "div" ["mt-3"].
Definition sel_employees : selector := css "p" ["mt-1"].
Definition sel_website : selector := css "a" ["text-stone-600"].
Definition sel_profile_h1 : selector := css_in "div" ["py-5"] "h1" [].
Definition sel_industries : selector := css_in "div" ["mb-1"] "div" ["mt-3"].

(** The parsed detail pane: a document root without ancestors. *)
Definition root (block : node) : handle := ([], block).

(** [offer.find_element(By.CSS_SELECTOR, tag).text] on the live summary
    block; the rendered text is taken to be the element's text. *)
Definition find_element_text (offer : node) (tag : string) : result string :=
  match select_one (css tag []) (root offer) with
  | Some h => Ok (text (snd h))
  | None => Raise NoSuchElementException
  end.

(* ===================================================================== *)
(** ** Funding normaliser: [extract_funding] *)
(* ===================================================================== *)

(** [funding_factors], in the order the dictionary is written. *)
Definition funding_factors : list (string * float) :=
  [("K", float_lit 1000); ("M", float_lit 1000000); ("B", float_lit 1000000000)].

(** The [for] loop over [funding_factors]: the first suffix found in
    the text returns from the function, [None] when the loop falls
    through. *)
Fixpoint scan_suffixes (factors : list (string * float)) (funding : string)
  : option (result Z) :=
  match factors with
  | [] => None
  | (suffix, multiplier) :: rest =>
      if contains suffix funding
      then Some (do f <- py_float (replace suffix EmptyString funding) ;
                 int_of_float (float_mul f multiplier))
      else scan_suffixes rest funding
  end.

(** The body of [extract_funding] once the heading text is at hand. *)
Definition normalize (raw : string) : result (option Z) :=
  let funding := filter_str (fun e => isalnum e || ascii_eqb e ".") raw in
  match scan_suffixes funding_factors funding with
  | Some r => do n <- r ; Ok (Some n)
  | None =>
      match py_int funding with
      | Ok n => Ok (Some n)
      | Raise ValueError | Raise TypeError => Ok None
      | Raise e => Raise e
      end
  end.

Definition extract_funding (inline_offer_block : node) : result (option Z) :=
  let funding_elements := select sel_profile_h1 (root inline_offer_block) in
  match funding_elements with
  | [] => Ok None
  | _ =>
      do h <- index funding_elements 1 ;
      normalize (text (snd h))
  end.

(* ===================================================================== *)
(** ** Listing extractor: the record built by [grab_offer_info] *)
(* ===================================================================== *)

(** A value that is either a string or a list of strings. *)
Inductive pyval : Type :=
| PStr (s : string)
| PList (l : list string).

(** The dictionary [job_data]. *)
Record job_data := JobData {
  id : string;
  position_name : string;
  company_name : string;
  locations : string;
  experience_level : pyval;
  desired_skills : list string;
  categories : list string;
  employee_count : string;
  company_website : string;
  company_stage : option string;
  company_funding : option Z;
  foundation_year : option Z;
  company_industries : list string
}.

(** One character of the class [[0-9a-fA-F-]]. *)
Definition is_hex_or_hyphen (c : ascii) : bool :=
  is_digit c || in_range 97 102 c || in_range 65 70 c || (code c =? 45).

(** Exactly [n] characters of the class, and what follows them. *)
Fixpoint take_class (n : nat) (s : string) : option (string * string) :=
  match n with
  | O => Some (EmptyString, s)
  | S n' =>
      match s with
      | String c s' =>
          if is_hex_or_hyphen c then
            match take_class n' s' with
            | Some (tok, r) => Some (String c tok, r)
            | None => None
            end
          else None
      | EmptyString => None
      end
  end.

(** The pattern [/([0-9a-fA-F-]{36})/] anchored at the start of [s];
    returns group 1. *)
Definition match_here (s : string) : option string :=
  match s with
  | String c r =>
      if ascii_eqb c "/" then
        match take_class 36 r with
        | Some (tok, String c' _) => if ascii_eqb c' "/" then Some tok else None
        | _ => None
        end
      else None
  | EmptyString => None
  end.

(** [re.search(r'/([0-9a-fA-F-]{36})/', url)], group 1 of the leftmost
    match. *)
Fixpoint search_id (url : string) : option string :=
  match match_here url with
  | Some tok => Some tok
  | None =>
      match url with
      | String _ url' => search_id url'
      | EmptyString => None
      end
  end.

(** [s.strip('/')]. *)
Definition strip_slashes (s : string) : string :=
  rstrip (fun c => ascii_eqb c "/") (lstrip (fun c => ascii_eqb c "/") s).

(** Lines 161 to 168: [company_stage] and [foundation_year]. *)
Definition profile_fields (inline_offer_block : node)
  : result (option string * option Z) :=
  let headings := select sel_profile_h1 (root inline_offer_block) in
  match headings with
  | [] => Ok (None, None)
  | _ =>
      do h0 <- index headings 0 ;
      do h2 <- index headings 2 ;
      match py_int (text (snd h2)) with
      | Ok y => Ok (Some (text (snd h0)), Some y)
      | Raise ValueError => Ok (Some (text (snd h0)), None)
      | Raise e => Raise e
      end
  end.

(** Lines 138 to 168: the dictionary, its entries evaluated in the
    order they are written. *)
Definition build_job_data (offer inline_offer_block : node) (url : string)
  : result job_data :=
  let block := root inline_offer_block in
  do tok <- deref (search_id url) ;
  let offer_id := strip_slashes tok in
  do position <- find_element_text offer "h3" ;
  do company <- find_element_text offer "h4" ;
  do locs <- find_element_text offer "p" ;
  let experience :=
    match select sel_badge block with
    | [] => PStr "Intern"
    | badges => PList (texts_of badges)
    end in
  do skill_box <- deref (select_one sel_mb3 block) ;
  let skills := texts_of (select sel_mt3 skill_box) in
  do category_box <- deref (find "div" "data-state" "closed" block) ;
  let cats := texts_of (select sel_mt3 category_box) in
  do employees_p <- deref (select_one sel_employees block) ;
  let employees := strip (replace "employees" EmptyString (text (snd employees_p))) in
  do website <- subscript (select_one sel_website block) "href" ;
  do funding <- extract_funding inline_offer_block ;
  let industries := texts_of (select sel_industries block) in
  do prof <- profile_fields inline_offer_block ;
  Ok {| id := offer_id;
        position_name := position;
        company_name := company;
        locations := locs;
        experience_level := experience;
        desired_skills := skills;
        categories := cats;
        employee_count := employees;
        company_website := website;
        company_stage := fst prof;
        company_funding := funding;
        foundation_year := snd prof;
        company_industries := industries |}.

(* ===================================================================== *)
(** ** Persistence: the connection and the insert *)
(* ===================================================================== *)

Inductive tx_status : Type := TxIdle | TxActive | TxAborted.

(** The connection and its cursor: the committed rows of the table,
    the rows written by the open transaction, and its status. *)
Record conn := Conn {
  table : gmap string job_data;
  pending : gmap string job_data;
  status : tx_status
}.

(** Modelled from the spec: [INSERT_DATA_QUERY] and the table it
    writes to are declared in the configuration module, which is
    absent; the persistence sink is a table keyed uniquely by [id] that
    accepts parameterised inserts and signals a uniqueness violation as
    a distinguishable error.  A statement on an aborted transaction is
    refused until the transaction is rolled back. *)
Definition execute (row : job_data) (c : conn) : result unit * conn :=
  match status c with
  | TxAborted => (Raise InFailedSqlTransaction, c)
  | _ =>
      match table c !! id row, pending c !! id row with
      | None, None =>
          (Ok tt, {| table := table c;
                     pending := <[id row := row]> (pending c);
                     status := TxActive |})
      | _, _ =>
          (Raise UniqueViolation,
           {| table := table c; pending := pending c; status := TxAborted |})
      end
  end.

(** [conn.rollback()]. *)
Definition rollback (c : conn) : conn :=
  {| table := table c; pending := ∅; status := TxIdle |}.

(** [conn.commit()]; committing an aborted transaction rolls it back. *)
Definition commit (c : conn) : conn :=
  match status c with
  | TxAborted => rollback c
  | _ => {| table := pending c ∪ table c; pending := ∅; status := TxIdle |}
  end.

(** The two messages that [grab_offer_info] logs. *)
Inductive outcome : Type :=
| Inserted          (* [... is added to database] *)
| AlreadyExists.    (* [... is already in database] *)

(** Lines 171 to 180: the insert and its handler. *)
Definition append (row : job_data) (c : conn) : result outcome * conn :=
  match execute row c with
  | (Ok _, c1) => (Ok Inserted, commit c1)
  | (Raise UniqueViolation, c1) => (Ok AlreadyExists, rollback c1)
  | (Raise e, c1) => (Raise e, c1)
  end.

Definition grab_offer_info (offer inline_offer_block : node) (url : string)
                           (c : conn) : result outcome * conn :=
  match build_job_data offer inline_offer_block url with
  | Raise e => (Raise e, c)
  | Ok row => append row c
  end.

(* ===================================================================== *)
(** ** Session controller: [login] *)
(* ===================================================================== *)

(** What one bounded wait for the marker
    [a.rounded-full.bg-primary-light] comes to: it returns, or raises
    [TimeoutException] or some other exception. *)
Definition poll : Type := result unit.

Definition timed_out : poll := Raise TimeoutException.

(** The state of the retry loop; [prompts] counts the calls of [input]. *)
Inductive login_state : Type :=
| Polling (prompts : nat)
| LoggedIn (prompts : nat)
| LoginRaised (e : pyexn) (prompts : nat).

(** One turn of the [while True] loop of [login], given what the wait
    comes to; the operator answers every prompt. *)
Definition login_step (st : login_state) (p : poll) : login_state :=
  match st with
  | Polling n =>
      match p with
      | Ok _ => LoggedIn n
      | Raise TimeoutException => Polling (S n)
      | Raise e => LoginRaised e n
      end
  | _ => st
  end.

(** The loop run against the successive outcomes of the wait; it is
    still [Polling] when they are used up. *)
Definition login_loop (polls : list poll) : login_state :=
  fold_left login_step polls (Polling 0).

(** [login]: the page load, the two inputs and the click, then the
    loop. *)
Definition login (page_ready : result unit) (inputs : list node)
                 (clicked : result unit) (polls : list poll) : login_state :=
  match (do _ <- page_ready ;
         do _ <- index inputs 0 ;
         do _ <- index inputs 1 ;
         clicked) with
  | Raise e => LoginRaised e 0
  | Ok _ => login_loop polls
  end.

(* ===================================================================== *)
(** ** Crawl driver: [scroll_and_load_jobs] *)
(* ===================================================================== *)

(** A rendered listing item and what the browser answers when the
    driver acts on it. *)
Record item := Item {
  offer : node;
  (** the click on [span.ml-2], the wait for [button.text-lg], then the
      parsed markup of the detail pane and the current URL *)
  opened : result (node * string);
  (** the click on [button.float-right] and the wait for the pane to
      vanish *)
  closed : result unit;
  (** [send_keys(Keys.PAGE_DOWN)] on this item *)
  scrolled : result unit
}.

(** What the driver asks of the browser, by position of the item. *)
Inductive action : Type :=
| OpenDetail (n : nat)
| CloseDetail (n : nat)
| PageDown
| Sleep.

Record crawl := Crawl {
  start_block_n : nat;
  db : conn;
  actions : list action
}.

Definition act (a : action) (st : crawl) : crawl :=
  {| start_block_n := start_block_n st; db := db st;
     actions := actions st ++ [a] |}.

(** The body of the [for] loop, lines 96 to 117. *)
Definition visit (it : item) (st : crawl) : result unit * crawl :=
  let st1 := act (OpenDetail (start_block_n st)) st in
  match opened it with
  | Raise e => (Raise e, st1)
  | Ok (inline_offer_block, url) =>
      match grab_offer_info (offer it) inline_offer_block url (db st1) with
      | (Raise e, c) =>
          (Raise e, {| start_block_n := start_block_n st1; db := c;
                       actions := actions st1 |})
      | (Ok _, c) =>
          let st2 := act (CloseDetail (start_block_n st))
                         {| start_block_n := S (start_block_n st1); db := c;
                            actions := actions st1 |} in
          match closed it with
          | Raise e => (Raise e, st2)
          | Ok _ => (Ok tt, st2)
          end
      end
  end.

(** The [for] loop over a window. *)
Fixpoint visit_all (items : list item) (st : crawl) : result unit * crawl :=
  match items with
  | [] => (Ok tt, st)
  | it :: rest =>
      match visit it st with
      | (Ok _, st') => visit_all rest st'
      | (Raise e, st') => (Raise e, st')
      end
  end.

(** [all_job_blocks[start_block_n : start_block_n + 21]]. *)
Definition window (all_job_blocks : list item) (start : nat) : list item :=
  take 21 (drop start all_job_blocks).

Inductive turn : Type :=
| Break
| Continue
| Raised (e : pyexn).

(** One turn of the outer [while True] loop, lines 90 to 122, given the
    items that [find_elements] returns. *)
Definition iteration (all_job_blocks : list item) (st : crawl) : turn * crawl :=
  let section_job_blocks := window all_job_blocks (start_block_n st) in
  match section_job_blocks with
  | [] => (Break, st)
  | first :: _ =>
      match visit_all section_job_blocks st with
      | (Raise e, st') => (Raised e, st')
      | (Ok _, st') =>
          let st'' := act PageDown st' in
          match scrolled (List.last section_job_blocks first) with
          | Ok _ => (Continue, st'')
          | Raise ElementNotInteractableException => (Continue, act Sleep st'')
          | Raise e => (Raised e, st'')
          end
      end
  end.

(** How a run stands: it returned, an exception left it, or it is still
    looping when the recorded answers of the page are used up. *)
Inductive run_end : Type :=
| Finished
| Halted (e : pyexn)
| Running.

(** The outer loop against the successive answers of [find_elements]. *)
Fixpoint scroll_loop (pages : list (list item)) (st : crawl) : run_end * crawl :=
  match pages with
  | [] => (Running, st)
  | all_job_blocks :: later =>
      match iteration all_job_blocks st with
      | (Break, st') => (Finished, st')
      | (Continue, st') => scroll_loop later st'
      | (Raised e, st') => (Halted e, st')
      end
  end.

(** The state in which the loop is entered: [start_block_n = 0]. *)
Definition start_state (c : conn) : crawl :=
  {| start_block_n := 0; db := c; actions := [] |}.

(** [scroll_and_load_jobs]: the listing page is loaded and waited for,
    then the loop runs. *)
Definition scroll_and_load_jobs (page_ready : result unit)
                                (pages : list (list item)) (c : conn)
  : run_end * crawl :=
  match page_ready with
  | Raise e => (Halted e, start_state c)
  | Ok _ => scroll_loop pages (start_state c)
  end.

(* ===================================================================== *)
(** ** Predicates of the statements *)
(* ===================================================================== *)

(** No transaction is open on the connection. *)
Definition idle (c : conn) : Prop := status c = TxIdle /\ pending c = ∅.

Fixpoint all_chars (p : ascii -> bool) (s : string) : bool :=
  match s with
  | EmptyString => true
  | String c s' => p c && all_chars p s'
  end.

(** A 36-character token of hexadecimal digits and hyphens. *)
Definition token (tok : string) : Prop :=
  String.length tok = 36%nat /\ all_chars is_hex_or_hyphen tok = true.

(** The URL holds such a token between two slashes. *)
Definition has_token (url : string) : Prop :=
  exists pre tok post : string,
    url = pre ++ "/" ++ tok ++ "/" ++ post /\ token tok.

(** The detail pane lacks the container of the skills, or that of the
    categories. *)
Definition container_missing (block : node) : Prop :=
  select sel_mb3 (root block) = [] \/
  find "div" "data-state" "closed" (root block) = None.

Definition not_minus (c : ascii) : bool := negb (ascii_eqb c "-").

(** A float that is not below zero: its sign bit is clear. *)
Definition nonneg_float (f : float) : Prop :=
  match f with
  | S754_zero s | S754_infinity s | S754_finite s _ _ => s = false
  | S754_nan => True
  end.

(** The browser opens and closes the detail pane of the item, and the
    extractor builds a record from it. *)
Definition visitable (it : item) : Prop :=
  exists (block : node) (url : string) (row : job_data),
    opened it = Ok (block, url) /\
    build_job_data (offer it) block url = Ok row /\
    closed it = Ok tt.

(** The page-down key reaches the item, or the item is not yet
    interactable. *)
Definition scrollable (it : item) : Prop :=
  scrolled it = Ok tt \/ scrolled it = Raise ElementNotInteractableException.

(* ===================================================================== *)
(** ** Fixtures *)
(* ===================================================================== *)

(** A summary block as the listing page renders it. *)
Definition sample_offer : node :=
  Elem "div" ["bg-white"; "rounded-md"] []
    [Elem "h3" [] [] [Text "Software Engineering Intern"];
     Elem "h4" [] [] [Text "Acme"];
     Elem "p" [] [] [Text "Remote in USA"];
     Elem "span" ["ml-2"] [] [Text "Detail"]].

Definition tagged (cls : string) (label : string) : node :=
  Elem "div" [cls] [] [Text label].

Definition heading (label : string) : node := Elem "h1" [] [] [Text label].

(** A detail pane with the given experience badges and the given
    headings in its profile block; no profile block when there is no
    heading. *)
Definition detail_pane (badges headings : list string) : node :=
  Elem "[document]" [] []
    [Elem "html" [] []
       [Elem "body" [] []
          [Elem "div" ["relative"; "h-screen"] []
             (List.map (tagged "bg-primary-light") badges ++
              [Elem "div" ["mb-3"] [] [tagged "mt-3" "Python"; tagged "mt-3" "SQL"];
               Elem "div" ["mb-1"] [("data-state", "closed")]
                 [tagged "mt-3" "Data Science"];
               Elem "p" ["mt-1"] [] [Text "51-200 employees"];
               Elem "a" ["text-stone-600"] [("href", "https://acme.example")] []] ++
              match headings with
              | [] => []
              | _ => [Elem "div" ["py-5"] [] (List.map heading headings)]
              end)%list]]].

(** The digit [1] written [n] times. *)
Fixpoint ones (n : nat) : string :=
  match n with
  | O => EmptyString
  | S n' => String "1" (ones n')
  end.

Definition sample_url : string :=
  "https://simplify.jobs/jobs/3fa85f64-5717-4562-b3fc-2c963f66afa6/overview".

Definition empty_conn : conn := {| table := ∅; pending := ∅; status := TxIdle |}.

Definition sample_item (url : string) (badges headings : list string) : item :=
  {| offer := sample_offer;
     opened := Ok (detail_pane badges headings, url);
     closed := Ok tt;
     scrolled := Ok tt |}.

(** A detail pane without any of the expected blocks, and an item that
    opens on it. *)
Definition bare_pane : node := Elem "[document]" [] [] [].

Definition bare_item : item :=
  {| offer := sample_offer;
     opened := Ok (bare_pane, sample_url);
     closed := Ok tt;
     scrolled := Ok tt |}.

(* ===================================================================== *)
(** ** The script: [main] *)
(* ===================================================================== *)

(** How [main] ends. *)
Inductive main_end : Type :=
| Returned
| Escaped (e : pyexn)      (* the exception that leaves [main] *)
| UnboundDriver            (* [UnboundLocalError] on [driver], out of [finally] *)
| NeverEnds.               (* [login] or the crawl still loops *)

(** What a run of [main] leaves: how it ended, the connection (if one
    was opened), whether [conn.close()] and [driver.close()] were
    reached, and what the crawl asked of the browser. *)
Record main_run := MainRun {
  ending : main_end;
  left_conn : option conn;
  conn_closed : bool;
  driver_closed : bool;
  crawled : list action
}.

(** The [finally] block after a browser was started: [cur.close()],
    [conn.close()], which drops an open transaction, and
    [driver.close()], whose exception replaces the one in flight. *)
Definition finally (body : main_end) (quit : result unit) (c : conn)
                   (acts : list action) : main_run :=
  {| ending := match quit with Ok _ => body | Raise e => Escaped e end;
     left_conn := Some (rollback c);
     conn_closed := true;
     driver_closed := match quit with Ok _ => true | Raise _ => false end;
     crawled := acts |}.

(** [main], given what [psycopg2.connect], [setup_driver], the login
    page, the listing page and [driver.close()] come to. *)
Definition main (connected : result conn) (started : result unit)
                (login_ready : result unit) (inputs : list node)
                (clicked : result unit) (polls : list poll)
                (listing_ready : result unit) (pages : list (list item))
                (quit : result unit) : main_run :=
  match connected with
  | Raise e =>
      {| ending := Escaped e; left_conn := None; conn_closed := false;
         driver_closed := false; crawled := [] |}
  | Ok c =>
      match started with
      | Raise _ =>
          {| ending := UnboundDriver; left_conn := Some (rollback c);
             conn_closed := true; driver_closed := false; crawled := [] |}
      | Ok _ =>
          match login login_ready inputs clicked polls with
          | Polling _ =>
              {| ending := NeverEnds; left_conn := Some c; conn_closed := false;
                 driver_closed := false; crawled := [] |}
          | LoginRaised e _ => finally (Escaped e) quit c []
          | LoggedIn _ =>
              match scroll_and_load_jobs listing_ready pages c with
              | (Finished, st) => finally Returned quit (db st) (actions st)
              | (Halted e, st) => finally (Escaped e) quit (db st) (actions st)
              | (Running, st) =>
                  {| ending := NeverEnds; left_conn := Some (db st);
                     conn_closed := false; driver_closed := false;
                     crawled := actions st |}
              end
          end
      end
  end.

(* ===================================================================== *)
(** ** Notions for the further properties *)
(* ===================================================================== *)


(** The digits of a string, character by character. *)
Fixpoint digits_of (s : string) : list Z :=
  match s with
  | EmptyString => []
  | String c s' => digit_val c :: digits_of s'
  end.


(** The record that the extractor builds from an item, when the pane
    opens and the extraction returns. *)
Definition item_row (it : item) : option job_data :=
  match opened it with
  | Ok (block, url) =>
      match build_job_data (offer it) block url with
      | Ok row => Some row
      | Raise _ => None
      end
  | Raise _ => None
  end.

(** A table after a row is offered to it: the row is kept only when its
    key is new. *)
Definition store_row (t : gmap string job_data) (row : job_data)
  : gmap string job_data :=
  match t !! id row with
  | Some _ => t
  | None => <[id row := row]> t
  end.

Definition store_rows (rows : list job_data) (t : gmap string job_data)
  : gmap string job_data :=
  fold_left store_row rows t.

(** A connection whose table holds one row, stored by an earlier run
    under the key of [sample_url]. *)
Definition old_row : job_data :=
  JobData "3fa85f64-5717-4562-b3fc-2c963f66afa6" "Analyst Intern" "Acme" "Berlin"
          (PList ["Intern"]) ["Excel"] ["Finance"] "11-50" "https://acme.example"
          None None None [].

Definition stocked_conn : conn :=
  {| table := {[ id old_row := old_row ]}; pending := ∅; status := TxIdle |}.

(** Every row of [t] is a row of [t'], unchanged. *)
Definition keeps_rows (t t' : gmap string job_data) : Prop :=
  forall (k : string) (v : job_data), t !! k = Some v -> t' !! k = Some v.

(** The actions of a visit of the item at position [k]. *)
Definition visit_actions (k : nat) : list action := [OpenDetail k; CloseDetail k].

(* ===================================================================== *)
(** * Properties *)
(* ===================================================================== *)

(** ** Funding normaliser *)

(** The product is a binary64 product, so the amount is the truncation
    of a float and not of the exact decimal product. *)
Example normalize_truncates_the_float_product :
  normalize "$1.001K" = Ok (Some 1000) /\
  normalize "$1.003M" = Ok (Some 1002999) /\
  normalize "$12.5M" = Ok (Some 12500000).
Proof. repeat split; vm_compute; reflexivity. Qed.

(** The first suffix of [K], [M], [B] found anywhere in the text
    decides, and every occurrence of it is removed. *)
Example normalize_first_suffix_wins :
  normalize "2KK" = Ok (Some 2000) /\
  normalize "K2" = Ok (Some 2000) /\
  normalize "2MK" = Raise ValueError.
Proof. repeat split; vm_compute; reflexivity. Qed.

(** With two headings or more, [extract_funding] normalises the text of
    the second one. *)
Lemma extract_funding_second_heading (block : node) (h0 h1 : handle)
      (rest : list handle) :
  select sel_profile_h1 (root block) = h0 :: h1 :: rest ->
  extract_funding block = normalize (text (snd h1)).
Proof.
  intros Hsel. unfold extract_funding. rewrite Hsel. reflexivity.
Qed.

Lemma extract_funding_no_profile (block : node) :
  select sel_profile_h1 (root block) = [] ->
  extract_funding block = Ok None.
Proof.
  intros Hsel. unfold extract_funding. rewrite Hsel. reflexivity.
Qed.


(** [int] of a string raises nothing but [ValueError]. *)
Lemma py_int_raises_ValueError (s : string) (e : pyexn) :
  py_int s = Raise e -> e = ValueError.
Proof.
  unfold py_int. destruct (read_sign _) as [neg body].
  destruct (digit_run body) as [[| d ds] [| c r]]; try congruence.
  destruct (_ <=? _)%nat; congruence.
Qed.

(** *** Amounts are never negative *)

Lemma kept_char_not_minus (c : ascii) :
  isalnum c || ascii_eqb c "." = true -> not_minus c = true.
Proof.
  destruct c as [[] [] [] [] [] [] [] []]; vm_compute; intros H;
    first [reflexivity | discriminate H].
Qed.

Lemma all_chars_weaken (p q : ascii -> bool) (s : string) :
  (forall c, p c = true -> q c = true) ->
  all_chars p s = true -> all_chars q s = true.
Proof.
  intros Hpq. induction s as [| c s IH]; simpl; [reflexivity |].
  intros H. apply andb_prop in H as [Hc Hs]. rewrite (Hpq c Hc), (IH Hs). reflexivity.
Qed.

Lemma all_chars_filter_str (p : ascii -> bool) (s : string) :
  all_chars p (filter_str p s) = true.
Proof.
  induction s as [| c s IH]; simpl; [reflexivity |].
  destruct (p c) eqn:Hc; [simpl; rewrite Hc, IH; reflexivity | exact IH].
Qed.

Lemma all_chars_remove (p : ascii -> bool) (old s : string) (skip : nat) :
  all_chars p s = true ->
  all_chars p (replace_from old EmptyString skip s) = true.
Proof.
  revert skip. induction s as [| c s IH]; intros skip H; [reflexivity |].
  simpl in H. apply andb_prop in H as [Hc Hs].
  cbn [replace_from]. destruct skip as [| k]; [| apply IH, Hs].
  destruct (String.prefix old (String c s)).
  - change (EmptyString ++ ?x) with x. apply IH, Hs.
  - simpl. rewrite Hc. apply IH, Hs.
Qed.

Lemma all_chars_lstrip (p sp : ascii -> bool) (s : string) :
  all_chars p s = true -> all_chars p (lstrip sp s) = true.
Proof.
  induction s as [| c s IH]; simpl; [reflexivity |].
  intros H. destruct (sp c); [| exact H].
  apply andb_prop in H as [_ Hs]. apply IH, Hs.
Qed.

Lemma all_chars_rstrip (p sp : ascii -> bool) (s : string) :
  all_chars p s = true -> all_chars p (rstrip sp s) = true.
Proof.
  induction s as [| c s IH]; simpl; [reflexivity |].
  intros H. apply andb_prop in H as [Hc Hs]. specialize (IH Hs).
  destruct (rstrip sp s) as [| c' r].
  - destruct (sp c); simpl; [reflexivity | rewrite Hc; reflexivity].
  - simpl in *. rewrite Hc, IH. reflexivity.
Qed.

Lemma read_sign_plus (s : string) :
  all_chars not_minus s = true -> fst (read_sign s) = false.
Proof.
  destruct s as [| c r]; simpl; [reflexivity |].
  intros H. apply andb_prop in H as [Hc _]. unfold not_minus in Hc.
  destruct (ascii_eqb c "+"); [reflexivity |].
  destruct (ascii_eqb c "-"); [discriminate Hc | reflexivity].
Qed.

Lemma digit_val_nonneg (c : ascii) : is_digit c = true -> 0 <= digit_val c.
Proof.
  unfold is_digit, in_range, digit_val. intros H.
  apply andb_prop in H as [Hlo _]. apply Z.leb_le in Hlo. lia.
Qed.

Lemma digit_run_nonneg (n : nat) (s : string) :
  (String.length s <= n)%nat -> Forall (fun d => 0 <= d) (fst (digit_run s)).
Proof.
  revert s. induction n as [| n IH]; intros s Hlen.
  - destruct s; [constructor | simpl in Hlen; lia].
  - destruct s as [| c s']; [constructor |].
    simpl in Hlen. cbn [digit_run].
    destruct (is_digit c) eqn:Hc; [| constructor].
    assert (Forall (fun d => 0 <= d) (fst (digit_run s'))) as Hs' by (apply IH; lia).
    destruct s' as [| u [| d t]].
    + simpl. constructor; [apply digit_val_nonneg, Hc | constructor].
    + destruct (digit_run (String u EmptyString)) as [ds r]. simpl in *.
      constructor; [apply digit_val_nonneg, Hc | exact Hs'].
    + destruct (ascii_eqb u "_" && is_digit d).
      * assert (Forall (fun d => 0 <= d) (fst (digit_run (String d t)))) as Ht
          by (apply IH; simpl in *; lia).
        destruct (digit_run (String d t)) as [ds r]. simpl in *.
        constructor; [apply digit_val_nonneg, Hc | exact Ht].
      * destruct (digit_run (String u (String d t))) as [ds r]. simpl in *.
        constructor; [apply digit_val_nonneg, Hc | exact Hs'].
Qed.

Lemma decimal_fold_nonneg (ds : list Z) (acc : Z) :
  0 <= acc -> Forall (fun d => 0 <= d) ds ->
  0 <= fold_left (fun a d => 10 * a + d) ds acc.
Proof.
  revert acc. induction ds as [| d ds IH]; intros acc Hacc Hds; simpl; [assumption |].
  inversion Hds; subst. apply IH; [lia | assumption].
Qed.

Lemma decimal_value_nonneg (ds : list Z) :
  Forall (fun d => 0 <= d) ds -> 0 <= decimal_value ds.
Proof. apply decimal_fold_nonneg. lia. Qed.

Lemma py_int_nonneg (s : string) (n : Z) :
  all_chars not_minus s = true -> py_int s = Ok n -> 0 <= n.
Proof.
  intros Hs. unfold py_int.
  pose proof (read_sign_plus (rstrip num_space (lstrip num_space s))
                (all_chars_rstrip _ _ _ (all_chars_lstrip _ _ _ Hs))) as Hsign.
  destruct (read_sign _) as [neg body]. simpl in Hsign. subst neg.
  pose proof (digit_run_nonneg (String.length body) body (Nat.le_refl _)) as Hds.
  destruct (digit_run body) as [[| d ds] [| c r]]; try discriminate.
  destruct (_ <=? _)%nat; [| discriminate].
  intros [= <-]. apply decimal_value_nonneg, Hds.
Qed.

(** Rounding keeps the sign it is given. *)
Lemma binary_round_aux_sign (sx : bool) (mx ex : Z) (lx : location) :
  match binary_round_aux prec emax sx mx ex lx with
  | S754_zero s | S754_infinity s | S754_finite s _ _ => s = sx
  | S754_nan => True
  end.
Proof.
  unfold binary_round_aux.
  destruct (shr_fexp prec emax mx ex lx) as [mrs e'].
  destruct (shr_fexp prec emax _ e' loc_Exact) as [mrs' e''].
  destruct (shr_m mrs'); [reflexivity | | exact I].
  destruct (e'' <=? emax - prec); reflexivity.
Qed.

Lemma float_of_decimal_nonneg (m x : Z) :
  0 <= m -> nonneg_float (float_of_decimal false m x).
Proof.
  intros Hm. unfold float_of_decimal.
  destruct m as [| p | p]; [reflexivity | | reflexivity].
  destruct (0 <=? x) eqn:Hx.
  - apply Z.leb_le in Hx.
    assert (0 < Z.pos p * 10 ^ x) as Hpos
      by (apply Z.mul_pos_pos; [lia | apply Z.pow_pos_nonneg; lia]).
    destruct (Z.pos p * 10 ^ x) as [| q | q]; [lia | | lia].
    unfold binary_normalize, binary_round.
    destruct (shl_align _ _ _) as [mz ez].
    apply (binary_round_aux_sign false).
  - destruct (SFdiv_core_binary _ _ _ _ _ _) as [[q e] l].
    apply (binary_round_aux_sign false).
Qed.

Lemma py_float_nonneg (s : string) (f : float) :
  all_chars not_minus s = true -> py_float s = Ok f -> nonneg_float f.
Proof.
  intros Hs. unfold py_float.
  pose proof (read_sign_plus (rstrip num_space (lstrip num_space s))
                (all_chars_rstrip _ _ _ (all_chars_lstrip _ _ _ Hs))) as Hsign.
  destruct (read_sign _) as [neg body]. simpl in Hsign. subst neg.
  destruct (_ || _); [intros [= <-]; reflexivity |].
  destruct (String.eqb _ "nan"); [intros [= <-]; exact I |].
  pose proof (digit_run_nonneg (String.length body) body (Nat.le_refl _)) as Hip.
  destruct (digit_run body) as [ip r1].
  assert (forall fp r2,
             Forall (fun d => 0 <= d) fp ->
             match (ip ++ fp)%list, read_exponent r2 with
             | [], _ => Raise ValueError
             | _ :: _, None => Raise ValueError
             | (_ :: _) as ds, Some e =>
                 Ok (float_of_decimal false (decimal_value ds)
                                      (e - Z.of_nat (length fp)))
             end = Ok f -> nonneg_float f) as Hgo.
  { intros fp r2 Hfp.
    assert (Forall (fun d => 0 <= d) (ip ++ fp)%list) as Hall
      by (apply Forall_app; split; assumption).
    destruct (ip ++ fp)%list as [| d ds]; [discriminate |].
    destruct (read_exponent r2) as [e |]; [| discriminate].
    intros [= <-]. apply float_of_decimal_nonneg, decimal_value_nonneg, Hall. }
  destruct r1 as [| c r].
  - apply (Hgo [] EmptyString). constructor.
  - destruct (ascii_eqb c ".").
    + pose proof (digit_run_nonneg (String.length r) r (Nat.le_refl _)) as Hfp.
      destruct (digit_run r) as [fp r2]. apply (Hgo fp r2 Hfp).
    + apply (Hgo [] (String c r)). constructor.
Qed.

Lemma float_mul_nonneg (x y : float) :
  nonneg_float x -> nonneg_float y -> nonneg_float (float_mul x y).
Proof.
  destruct x as [sx | sx | | sx mx ex], y as [sy | sy | | sy my ey];
    simpl; intros Hx Hy; subst; try reflexivity; try exact I.
  apply (binary_round_aux_sign false).
Qed.

Lemma int_of_float_nonneg (f : float) (n : Z) :
  nonneg_float f -> int_of_float f = Ok n -> 0 <= n.
Proof.
  destruct f as [s | s | | s m e]; simpl; try discriminate.
  - intros _ [= <-]. lia.
  - intros -> [= <-]. destruct (0 <=? e).
    + apply Z.shiftl_nonneg. lia.
    + apply Z.shiftr_nonneg. lia.
Qed.

Lemma scan_suffixes_nonneg (factors : list (string * float)) (funding : string)
      (n : Z) :
  all_chars not_minus funding = true ->
  Forall (fun sm => nonneg_float (snd sm)) factors ->
  scan_suffixes factors funding = Some (Ok n) -> 0 <= n.
Proof.
  intros Hf Hfac. induction Hfac as [| [suffix multiplier] rest Hm Hrest IH]; simpl.
  - discriminate.
  - destruct (contains suffix funding); [| exact IH].
    destruct (py_float _) as [f |] eqn:Hpf; simpl; [| discriminate].
    intros [= Hn]. apply (int_of_float_nonneg _ _ (float_mul_nonneg _ _
      (py_float_nonneg _ _ (all_chars_remove _ _ _ _ Hf) Hpf) Hm) Hn).
Qed.

(** Whenever [normalize] returns an amount, the amount is not
    negative. *)
Lemma normalize_nonneg (raw : string) (n : Z) :
  normalize raw = Ok (Some n) -> 0 <= n.
Proof.
  unfold normalize.
  assert (all_chars not_minus
            (filter_str (fun e => isalnum e || ascii_eqb e ".") raw) = true) as Hclean.
  { eapply all_chars_weaken; [| apply all_chars_filter_str].
    intros c Hc. apply kept_char_not_minus, Hc. }
  destruct (scan_suffixes _ _) as [[m | e] |] eqn:Hscan; simpl.
  - intros [= <-]. eapply scan_suffixes_nonneg; [exact Hclean | | exact Hscan].
    repeat constructor.
  - discriminate.
  - destruct (py_int _) as [m | []] eqn:Hint; try discriminate.
    intros [= <-]. eapply py_int_nonneg; eassumption.
Qed.

Lemma py_float_raises_ValueError (s : string) (e : pyexn) :
  py_float s = Raise e -> e = ValueError.
Proof.
  unfold py_float. destruct (read_sign _) as [neg body].
  destruct (_ || _); [discriminate |].
  destruct (String.eqb _ "nan"); [discriminate |].
  destruct (digit_run body) as [ip r1].
  assert (forall fp r2,
             match (ip ++ fp)%list, read_exponent r2 with
             | [], _ => Raise ValueError
             | _ :: _, None => Raise ValueError
             | (_ :: _) as ds, Some x =>
                 Ok (float_of_decimal neg (decimal_value ds)
                                      (x - Z.of_nat (length fp)))
             end = Raise e -> e = ValueError) as Hgo.
  { intros fp r2. destruct (ip ++ fp)%list as [| d ds]; [congruence |].
    destruct (read_exponent r2); congruence. }
  destruct r1 as [| c r]; [apply (Hgo [] EmptyString) |].
  destruct (ascii_eqb c "."); [| apply (Hgo [] (String c r))].
  destruct (digit_run r) as [fp r2]. apply (Hgo fp r2).
Qed.

Lemma int_of_float_raises (f : float) (e : pyexn) :
  int_of_float f = Raise e -> e = ValueError \/ e = OverflowError.
Proof. destruct f; simpl; intros [= <-]; auto. Qed.

(** An exception leaves [normalize] only out of [float], or out of
    [int] of a float that is not finite. *)
Lemma normalize_raises (raw : string) (e : pyexn) :
  normalize raw = Raise e -> e = ValueError \/ e = OverflowError.
Proof.
  unfold normalize.
  destruct (scan_suffixes _ _) as [[m | e'] |] eqn:Hscan; simpl.
  - discriminate.
  - intros [= <-]. revert Hscan. generalize funding_factors as factors.
    induction factors as [| [suffix multiplier] rest IH]; simpl; [discriminate |].
    destruct (contains suffix _); [| exact IH].
    destruct (py_float _) as [f | e0] eqn:Hpf; simpl.
    + intros [= H]. apply int_of_float_raises in H. exact H.
    + intros [= <-]. apply py_float_raises_ValueError in Hpf. auto.
  - destruct (py_int _) as [m | e'] eqn:Hint; [discriminate |].
    apply py_int_raises_ValueError in Hint. subst e'. discriminate.
Qed.

(** C5: the normaliser does not map every unparseable text to the
    absent amount.  A text with a unit suffix whose remainder is not a
    decimal number raises [ValueError] out of [float], which only the
    suffix-free branch handles; and a profile block with a single
    heading, hence with no funding text, raises [IndexError]. *)
Theorem normalize_raises_on_suffixed_text :
  normalize "Bootstrapped" = Raise ValueError /\
  extract_funding (detail_pane [] ["Seed"; "Bootstrapped"; "2019"])
    = Raise ValueError /\
  extract_funding (detail_pane [] ["Seed"]) = Raise IndexError.
Proof. repeat split; vm_compute; reflexivity. Qed.

(** ** Listing extractor *)

(** Without a badge the extractor stores the string and not a list. *)
Lemma experience_level_without_badge (offer block : node) (url : string)
      (row : job_data) :
  select sel_badge (root block) = [] ->
  build_job_data offer block url = Ok row ->
  experience_level row = PStr "Intern".
Proof.
  intros Hsel Hrow. unfold build_job_data in Hrow. rewrite Hsel in Hrow.
  repeat match type of Hrow with
         | rbind ?r _ = Ok _ => destruct r; simpl in Hrow; [| discriminate]
         end.
  injection Hrow as <-. reflexivity.
Qed.

(** C3: on a detail pane without experience badge the extracted
    [experience_level] is the string ["Intern"], which is not the
    one-element list [["Intern"]] that the other branch of the same
    entry would build. *)
Theorem experience_level_default_is_a_string :
  exists row,
    build_job_data sample_offer (detail_pane [] []) sample_url = Ok row /\
    select sel_badge (root (detail_pane [] [])) = [] /\
    experience_level row = PStr "Intern" /\
    experience_level row <> PList ["Intern"].
Proof.
  eexists. split; [vm_compute; reflexivity |].
  split; [vm_compute; reflexivity |].
  split; [reflexivity | discriminate].
Qed.

(** The profile fields of an extracted record are those of
    [profile_fields]. *)
Lemma build_job_data_profile (offer block : node) (url : string) (row : job_data) :
  build_job_data offer block url = Ok row ->
  profile_fields block = Ok (company_stage row, foundation_year row).
Proof.
  intros Hrow. unfold build_job_data in Hrow.
  repeat match type of Hrow with
         | rbind ?r _ = Ok _ =>
             let E := fresh "E" in
             destruct r eqn:E; simpl in Hrow; [| discriminate]
         end.
  injection Hrow as <-. simpl. rewrite <- surjective_pairing. reflexivity.
Qed.


(** [int] converts a literal of 4300 digits and refuses one of 4301, so
    that a third heading of 4301 digits gives no year and a funding
    text of 4301 digits gives no amount. *)
Example int_digit_limit :
  py_int (ones 4300) = Ok (decimal_value (digits_of (ones 4300))) /\
  py_int (ones 4301) = Raise ValueError /\
  profile_fields (detail_pane [] ["Seed"; "$1.5M"; ones 4301])
    = Ok (Some "Seed", None) /\
  normalize (ones 4301) = Ok None.
Proof. repeat split; vm_compute; reflexivity. Qed.



(** ** Dedup store *)

Lemma empty_conn_idle : idle empty_conn.
Proof. split; reflexivity. Qed.

(** Whatever [append] returns normally, it leaves no transaction
    open. *)
Lemma append_leaves_idle (row : job_data) (c c' : conn) (o : outcome) :
  append row c = (Ok o, c') -> idle c'.
Proof.
  unfold append, execute, commit, rollback.
  destruct (status c); destruct (table c !! id row); destruct (pending c !! id row);
    simpl; intros H; inversion H; split; reflexivity.
Qed.

(** On an idle connection, [append] inserts a row whose key is new. *)
Lemma append_fresh (row : job_data) (c : conn) :
  idle c -> table c !! id row = None ->
  append row c =
    (Ok Inserted, {| table := <[id row := row]> (table c); pending := ∅;
                     status := TxIdle |}).
Proof.
  intros [Hst Hp] Hnone. unfold append, execute. rewrite Hst, Hnone, Hp.
  rewrite lookup_empty. simpl. unfold commit. simpl.
  rewrite insert_empty, <- insert_union_singleton_l. reflexivity.
Qed.

(** On an idle connection, [append] of a row whose key is taken leaves
    the connection as it was. *)
Lemma append_duplicate (row old : job_data) (c : conn) :
  idle c -> table c !! id row = Some old ->
  append row c = (Ok AlreadyExists, c).
Proof.
  intros [Hst Hp] Hsome. unfold append, execute. rewrite Hst, Hsome.
  unfold rollback. simpl. destruct c as [t p st]. simpl in *. subst. reflexivity.
Qed.

(** C1: [append] is idempotent.  On a connection with no open
    transaction the first call returns normally; a second call with the
    same [id] returns [AlreadyExists] and leaves the connection exactly
    as the first call left it, with no transaction open, so that a row
    with a new key is then inserted. *)
Theorem append_idempotent (x x' : job_data) (c : conn) :
  idle c -> id x' = id x ->
  exists (o : outcome) (c1 : conn),
    append x c = (Ok o, c1) /\
    append x' c1 = (Ok AlreadyExists, c1) /\
    idle c1 /\
    (forall y : job_data,
        table c1 !! id y = None ->
        exists c2, append y c1 = (Ok Inserted, c2) /\ table c2 !! id y = Some y).
Proof.
  intros Hidle Hid.
  assert (forall c1, idle c1 ->
            forall y : job_data, table c1 !! id y = None ->
            exists c2, append y c1 = (Ok Inserted, c2) /\ table c2 !! id y = Some y)
    as Hnext.
  { intros c1 Hc1 y Hy. eexists. split; [apply append_fresh; assumption |].
    simpl. apply lookup_insert_eq. }
  destruct (table c !! id x) as [old |] eqn:Hlook.
  - exists AlreadyExists, c. split; [eapply append_duplicate; eauto |].
    split; [eapply append_duplicate; [assumption | rewrite Hid; eassumption] |].
    split; [assumption | apply Hnext; assumption].
  - eexists Inserted, _. split; [apply append_fresh; assumption |].
    assert (idle {| table := <[id x := x]> (table c); pending := ∅;
                    status := TxIdle |}) as Hidle1 by (split; reflexivity).
    split; [| split; [assumption | apply Hnext; assumption]].
    eapply append_duplicate; [assumption |].
    simpl. rewrite Hid. apply lookup_insert_eq.
Qed.

Lemma append_idempotent_witness :
  exists (o : outcome) (c1 : conn),
    append (JobData "a" "p" "c" "l" (PStr "Intern") [] [] "e" "w" None None None [])
           empty_conn = (Ok o, c1) /\
    append (JobData "a" "q" "d" "m" (PList ["Intern"]) [] [] "e" "w" None None None [])
           c1 = (Ok AlreadyExists, c1) /\
    idle c1 /\
    (forall y : job_data,
        table c1 !! id y = None ->
        exists c2, append y c1 = (Ok Inserted, c2) /\ table c2 !! id y = Some y).
Proof.
  apply (append_idempotent
           (JobData "a" "p" "c" "l" (PStr "Intern") [] [] "e" "w" None None None [])
           (JobData "a" "q" "d" "m" (PList ["Intern"]) [] [] "e" "w" None None None [])
           empty_conn).
  - split; reflexivity.
  - reflexivity.
Defined.

(** ** Identifier extraction *)

Lemma take_class_sound (n : nat) (s tok r : string) :
  take_class n s = Some (tok, r) ->
  s = tok ++ r /\ String.length tok = n /\ all_chars is_hex_or_hyphen tok = true.
Proof.
  revert s tok r. induction n as [| n IH]; intros s tok r H; simpl in H.
  - injection H as <- <-. auto.
  - destruct s as [| c s']; [discriminate |].
    destruct (is_hex_or_hyphen c) eqn:Hc; [| discriminate].
    destruct (take_class n s') as [[tok' r'] |] eqn:Ht; [| discriminate].
    injection H as <- <-. destruct (IH _ _ _ Ht) as (-> & <- & Hall).
    simpl. rewrite Hc, Hall. auto.
Qed.

Lemma take_class_complete (tok r : string) :
  all_chars is_hex_or_hyphen tok = true ->
  take_class (String.length tok) (tok ++ r) = Some (tok, r).
Proof.
  induction tok as [| c tok IH]; simpl; intros H; [reflexivity |].
  apply andb_prop in H as [Hc Hall]. rewrite Hc, (IH Hall). reflexivity.
Qed.

Lemma match_here_sound (s tok : string) :
  match_here s = Some tok ->
  exists post, s = "/" ++ tok ++ "/" ++ post /\ token tok.
Proof.
  unfold match_here. destruct s as [| c r]; [discriminate |].
  destruct (ascii_eqb c "/") eqn:Hc; [| discriminate].
  apply Ascii.eqb_eq in Hc as ->.
  destruct (take_class 36 r) as [[t [| c' post]] |] eqn:Ht; try discriminate.
  destruct (ascii_eqb c' "/") eqn:Hc'; [| discriminate].
  apply Ascii.eqb_eq in Hc' as ->. intros [= <-].
  apply take_class_sound in Ht as (-> & Hlen & Hall).
  exists post. split; [reflexivity | split; assumption].
Qed.

Lemma match_here_complete (tok post : string) :
  token tok -> match_here ("/" ++ tok ++ "/" ++ post) = Some tok.
Proof.
  intros [Hlen Hall]. unfold match_here.
  change ("/" ++ tok ++ "/" ++ post)
    with (String "/"%char (tok ++ String "/"%char post)).
  change (ascii_eqb "/" "/") with true. cbv iota.
  rewrite <- Hlen, (take_class_complete tok _ Hall). reflexivity.
Qed.

Lemma search_id_cons (c : ascii) (url : string) :
  search_id (String c url) =
    match match_here (String c url) with
    | Some tok => Some tok
    | None => search_id url
    end.
Proof. reflexivity. Qed.

Lemma search_id_sound (url tok : string) :
  search_id url = Some tok ->
  exists pre post, url = pre ++ "/" ++ tok ++ "/" ++ post /\ token tok.
Proof.
  induction url as [| c url IH].
  - discriminate.
  - rewrite search_id_cons.
    destruct (match_here (String c url)) as [t |] eqn:Hm.
    + intros [= ->]. apply match_here_sound in Hm as (post & Hs & Htok).
      exists EmptyString, post. split; assumption.
    + intros H. destruct (IH H) as (pre & post & -> & Htok).
      exists (String c pre), post. split; [reflexivity | assumption].
Qed.

Lemma search_id_complete (url : string) :
  has_token url -> exists tok, search_id url = Some tok.
Proof.
  intros (pre & tok & post & -> & Htok).
  induction pre as [| c pre IH].
  - exists tok. change (EmptyString ++ ?x) with x.
    change ("/" ++ tok ++ "/" ++ post)
      with (String "/"%char (tok ++ "/" ++ post)).
    rewrite search_id_cons.
    change (String "/"%char (tok ++ "/" ++ post))
      with ("/" ++ tok ++ "/" ++ post).
    rewrite (match_here_complete tok post Htok). reflexivity.
  - destruct IH as [t Ht].
    change (String c pre ++ ?x) with (String c (pre ++ x)).
    rewrite search_id_cons.
    destruct (match_here _) as [t' |]; [exists t' | exists t]; auto.
Qed.

(** [re.search] finds an identifier exactly when the URL holds a
    token between slashes. *)
Lemma search_id_none_iff (url : string) :
  search_id url = None <-> ~ has_token url.
Proof.
  split.
  - intros Hnone Htok. apply search_id_complete in Htok as [t Ht]. congruence.
  - intros Hno. destruct (search_id url) as [t |] eqn:Hs; [| reflexivity].
    exfalso. apply Hno. apply search_id_sound in Hs as (pre & post & -> & Htok).
    exists pre, t, post. auto.
Qed.

Example search_id_sample :
  search_id sample_url = Some "3fa85f64-5717-4562-b3fc-2c963f66afa6" /\
  search_id "https://simplify.jobs/jobs/overview" = None.
Proof. split; vm_compute; reflexivity. Qed.

(** ** Structural failures *)

Lemma build_job_data_raises (offer block : node) (url : string) :
  ~ has_token url \/ container_missing block ->
  exists e, build_job_data offer block url = Raise e.
Proof.
  intros Hbad. destruct (build_job_data offer block url) as [row | e] eqn:Hrow;
    [exfalso | eauto].
  unfold build_job_data in Hrow.
  repeat match type of Hrow with
         | rbind ?r _ = Ok _ =>
             let E := fresh "E" in
             destruct r eqn:E; simpl in Hrow; [| discriminate]
         end.
  destruct Hbad as [Hurl | [Hskill | Hcat]].
  - apply search_id_none_iff in Hurl. rewrite Hurl in E. discriminate E.
  - unfold select_one in E3. rewrite Hskill in E3. discriminate E3.
  - rewrite Hcat in E4. discriminate E4.
Qed.

Lemma grab_offer_info_raises (offer block : node) (url : string) (c : conn) :
  ~ has_token url \/ container_missing block ->
  exists e, grab_offer_info offer block url c = (Raise e, c).
Proof.
  intros Hbad. destruct (build_job_data_raises offer block url Hbad) as [e He].
  exists e. unfold grab_offer_info. rewrite He. reflexivity.
Qed.

(** A visit that fails in the extractor stops before the cursor moves
    and before the pane is closed. *)
Lemma visit_raises (it : item) (block : node) (url : string) (st : crawl) :
  opened it = Ok (block, url) ->
  ~ has_token url \/ container_missing block ->
  exists e, visit it st = (Raise e, act (OpenDetail (start_block_n st)) st).
Proof.
  intros Hopen Hbad. unfold visit. rewrite Hopen.
  destruct (grab_offer_info_raises (offer it) block url
              (db (act (OpenDetail (start_block_n st)) st)) Hbad) as [e He].
  rewrite He. exists e. reflexivity.
Qed.

Lemma visit_all_app (pre rest : list item) (st : crawl) :
  visit_all (pre ++ rest) st =
    match visit_all pre st with
    | (Ok _, st1) => visit_all rest st1
    | (Raise e, st1) => (Raise e, st1)
    end.
Proof.
  revert st. induction pre as [| it pre IH]; intros st; simpl; [reflexivity |].
  destruct (visit it st) as [[u | e] st1]; [apply IH | reflexivity].
Qed.

(** A window that holds an item failing in the extractor is left by an
    exception. *)
Lemma visit_all_raises (it : item) (block : node) (url : string)
      (items : list item) (st : crawl) :
  opened it = Ok (block, url) ->
  ~ has_token url \/ container_missing block ->
  it ∈ items ->
  exists e st', visit_all items st = (Raise e, st').
Proof.
  intros Hopen Hbad Hin. apply list_elem_of_split in Hin as (pre & rest & ->).
  rewrite visit_all_app. destruct (visit_all pre st) as [[u | e] st1]; [| eauto].
  simpl. destruct (visit_raises it block url st1 Hopen Hbad) as [e He].
  rewrite He. eauto.
Qed.

(** C2: an item whose URL holds no 36-character token of hexadecimal
    digits and hyphens between slashes, or whose detail pane lacks the
    skill or the category container, makes [grab_offer_info] raise with
    the connection untouched; the exception leaves the [for] loop with
    the store and the cursor as they stood before the item, and ends
    the crawl whenever a window holds such an item. *)
Theorem structural_failure_halts (it : item) (block : node) (url : string) :
  opened it = Ok (block, url) ->
  ~ has_token url \/ container_missing block ->
  (forall c : conn,
      exists e, grab_offer_info (offer it) block url c = (Raise e, c)) /\
  (forall (pre rest : list item) (st st1 : crawl),
      visit_all pre st = (Ok tt, st1) ->
      exists e st',
        visit_all (pre ++ it :: rest) st = (Raise e, st') /\
        db st' = db st1 /\ start_block_n st' = start_block_n st1) /\
  (forall (all_job_blocks : list item) (later : list (list item)) (st : crawl),
      it ∈ window all_job_blocks (start_block_n st) ->
      exists e st', scroll_loop (all_job_blocks :: later) st = (Halted e, st')).
Proof.
  intros Hopen Hbad. split; [| split].
  - intros c. apply grab_offer_info_raises. assumption.
  - intros pre rest st st1 Hpre. rewrite visit_all_app, Hpre. simpl.
    destruct (visit_raises it block url st1 Hopen Hbad) as [e He].
    rewrite He. exists e. eexists. split; [reflexivity |]. split; reflexivity.
  - intros all later st Hin. simpl. unfold iteration.
    destruct (window all (start_block_n st)) as [| first others] eqn:Hw.
    + apply elem_of_nil in Hin. contradiction.
    + destruct (visit_all_raises it block url (first :: others) st Hopen Hbad Hin)
        as (e & st' & Hv).
      rewrite Hv. eauto.
Qed.

Lemma structural_failure_halts_witness :
  (forall c : conn,
      exists e,
        grab_offer_info (offer bare_item) bare_pane sample_url c = (Raise e, c)) /\
  (forall (pre rest : list item) (st st1 : crawl),
      visit_all pre st = (Ok tt, st1) ->
      exists e st',
        visit_all (pre ++ bare_item :: rest) st = (Raise e, st') /\
        db st' = db st1 /\ start_block_n st' = start_block_n st1) /\
  (forall (all_job_blocks : list item) (later : list (list item)) (st : crawl),
      bare_item ∈ window all_job_blocks (start_block_n st) ->
      exists e st', scroll_loop (all_job_blocks :: later) st = (Halted e, st')).
Proof.
  apply (structural_failure_halts bare_item bare_pane sample_url).
  - reflexivity.
  - right. left. vm_compute. reflexivity.
Defined.

(** The same holds for a URL without identifier. *)
Example url_without_token_raises :
  grab_offer_info sample_offer (detail_pane [] [])
    "https://simplify.jobs/jobs/overview" empty_conn
  = (Raise AttributeError, empty_conn).
Proof. vm_compute. reflexivity. Qed.

(** ** Cursor progression *)

Lemma append_total (row : job_data) (c : conn) :
  idle c -> exists o c', append row c = (Ok o, c') /\ idle c'.
Proof.
  intros Hidle. destruct (table c !! id row) as [old |] eqn:Hlook.
  - exists AlreadyExists, c. split; [eapply append_duplicate; eauto | assumption].
  - eexists Inserted, _. split; [apply append_fresh; assumption |].
    split; reflexivity.
Qed.

Lemma visit_ok (it : item) (st : crawl) :
  visitable it -> idle (db st) ->
  exists st',
    visit it st = (Ok tt, st') /\
    start_block_n st' = S (start_block_n st) /\ idle (db st').
Proof.
  intros (block & url & row & Hopen & Hrow & Hclose) Hidle.
  unfold visit, grab_offer_info. rewrite Hopen, Hrow. simpl.
  destruct (append_total row (db st) Hidle) as (o & c' & Happ & Hidle').
  rewrite Happ, Hclose. eexists. split; [reflexivity |]. split; [reflexivity | exact Hidle'].
Qed.

(** A visit that returns has moved the cursor by one; one that raises
    has moved it by one at most. *)
Lemma visit_cursor (it : item) (st st' : crawl) (r : result unit) :
  visit it st = (r, st') ->
  match r with
  | Ok _ => start_block_n st' = S (start_block_n st)
  | Raise _ => (start_block_n st <= start_block_n st' <= S (start_block_n st))%nat
  end.
Proof.
  unfold visit. destruct (opened it) as [[block url] | e].
  - destruct (grab_offer_info _ _ _ _) as [[o | e] c].
    + destruct (closed it); intros [= <- <-]; simpl; lia.
    + intros [= <- <-]. simpl. lia.
  - intros [= <- <-]. simpl. lia.
Qed.

Lemma visit_all_cursor (items : list item) (st st' : crawl) (r : result unit) :
  visit_all items st = (r, st') ->
  match r with
  | Ok _ => start_block_n st' = (start_block_n st + length items)%nat
  | Raise _ =>
      (start_block_n st <= start_block_n st' <= start_block_n st + length items)%nat
  end.
Proof.
  revert st. induction items as [| it items IH]; intros st; simpl.
  - intros [= <- <-]. lia.
  - destruct (visit it st) as [[u | e] st1] eqn:Hv; apply visit_cursor in Hv.
    + intros H. apply IH in H. destruct r; lia.
    + intros [= <- <-]. lia.
Qed.

(** Over a window of items that the browser opens and closes and from
    which the extractor builds a record, the [for] loop returns,
    whatever rows the store already holds. *)
Lemma visit_all_returns (items : list item) (st : crawl) :
  Forall visitable items -> idle (db st) ->
  exists st', visit_all items st = (Ok tt, st') /\ idle (db st').
Proof.
  intros Hall. revert st. induction Hall as [| it items Hit Hall IH]; intros st Hidle.
  - exists st. simpl. split; [reflexivity | assumption].
  - destruct (visit_ok it st Hit Hidle) as (st1 & Hv & Hc & Hidle1).
    destruct (IH st1 Hidle1) as (st' & Hvs & Hidle').
    exists st'. simpl. rewrite Hv. split; [exact Hvs | assumption].
Qed.

(** A visit whose detail pane does not open, or whose extraction
    raises, ends before the cursor moves. *)
Lemma visit_fails (it : item) (st : crawl) :
  item_row it = None ->
  exists e, visit it st = (Raise e, act (OpenDetail (start_block_n st)) st).
Proof.
  unfold item_row, visit, grab_offer_info.
  destruct (opened it) as [[block url] | e]; [| eauto].
  destruct (build_job_data (offer it) block url) as [row | e]; [discriminate |].
  eauto.
Qed.

(** C7 as stated fails: the cursor does not advance on an item whose
    extraction raises.  After a window of one such item the cursor is
    still at its starting value, not one past it. *)
Lemma cursor_stays_on_a_failing_item :
  exists st',
    visit_all [bare_item] (start_state empty_conn) = (Raise AttributeError, st') /\
    start_block_n st' = 0%nat /\
    start_block_n st' <>
      (start_block_n (start_state empty_conn) + length [bare_item])%nat.
Proof.
  eexists. split; [vm_compute; reflexivity |]. split; [reflexivity | discriminate].
Qed.

(** C7 (amended): the cursor advances by one after each item whose
    visit returns, whether its insert was new or met a duplicate key:
    whenever the [for] loop has run over a window of N items the
    cursor is at its starting value plus N, and the loop does run over
    every window whose items the browser opens and closes and the
    extractor reads, whatever rows the store already holds.  An item
    whose pane does not open or whose extraction raises leaves the
    cursor on that item, at the starting value plus the number of
    items before it, and the exception leaves the loop. *)
Theorem cursor_progression :
  forall (items : list item) (st : crawl),
    (forall st' : crawl,
        visit_all items st = (Ok tt, st') ->
        start_block_n st' = (start_block_n st + length items)%nat) /\
    (Forall visitable items -> idle (db st) ->
     exists st', visit_all items st = (Ok tt, st') /\ idle (db st')) /\
    (forall (pre : list item) (it : item) (rest : list item),
        items = (pre ++ it :: rest)%list ->
        Forall visitable pre -> idle (db st) -> item_row it = None ->
        exists e st',
          visit_all items st = (Raise e, st') /\
          start_block_n st' = (start_block_n st + length pre)%nat).
Proof.
  intros items st. split; [| split].
  - intros st' Hrun. apply (visit_all_cursor items st st' (Ok tt) Hrun).
  - apply visit_all_returns.
  - intros pre it rest -> Hpre Hidle Hrow.
    destruct (visit_all_returns pre st Hpre Hidle) as (st1 & Hrun & _).
    pose proof (visit_all_cursor pre st st1 (Ok tt) Hrun) as Hcur.
    cbv beta iota in Hcur.
    destruct (visit_fails it st1 Hrow) as [e He].
    exists e. eexists. rewrite visit_all_app, Hrun. cbn [visit_all].
    rewrite He. split; [reflexivity | exact Hcur].
Qed.

Lemma cursor_progression_witness :
  exists st',
    visit_all [sample_item sample_url [] []; sample_item sample_url [] []]
              (start_state empty_conn) = (Ok tt, st') /\
    start_block_n st' = 2%nat.
Proof.
  destruct (proj1 (proj2 (cursor_progression
                     [sample_item sample_url [] []; sample_item sample_url [] []]
                     (start_state empty_conn))))
    as (st' & Hrun & _).
  - repeat constructor;
      eexists _, _, _;
      (split; [reflexivity | split; [vm_compute; reflexivity | reflexivity]]).
  - split; reflexivity.
  - exists st'. split; [exact Hrun |].
    apply (proj1 (cursor_progression _ _) st' Hrun).
Defined.

(** In that run the second visit meets the key of the first. *)
Example second_visit_is_a_duplicate :
  exists c1,
    grab_offer_info sample_offer (detail_pane [] []) sample_url empty_conn
      = (Ok Inserted, c1) /\
    grab_offer_info sample_offer (detail_pane [] []) sample_url c1
      = (Ok AlreadyExists, c1).
Proof.
  unfold grab_offer_info.
  destruct (build_job_data sample_offer (detail_pane [] []) sample_url)
    as [row | e] eqn:Hrow; [| vm_compute in Hrow; discriminate].
  eexists. split; [apply append_fresh; [apply empty_conn_idle | apply lookup_empty] |].
  eapply append_duplicate; [split; reflexivity | simpl; apply lookup_insert_eq].
Qed.

(** ** Windows and termination *)

Lemma window_nil_iff (all_job_blocks : list item) (n : nat) :
  window all_job_blocks n = [] <-> (length all_job_blocks <= n)%nat.
Proof.
  unfold window. split.
  - intros H. apply (f_equal length) in H.
    rewrite length_take, length_drop in H. change (length []) with 0%nat in H. lia.
  - intros H. rewrite drop_ge by assumption. reflexivity.
Qed.

Lemma window_length (all_job_blocks : list item) (n : nat) :
  length (window all_job_blocks n) = Nat.min 21 (length all_job_blocks - n).
Proof. unfold window. rewrite length_take, length_drop. reflexivity. Qed.

Lemma window_lookup (all_job_blocks : list item) (n i : nat) :
  window all_job_blocks n !! i =
    if decide (i < 21)%nat then all_job_blocks !! (n + i)%nat else None.
Proof.
  unfold window. destruct (decide (i < 21)%nat) as [Hlt | Hge].
  - rewrite lookup_take_lt by assumption. apply lookup_drop.
  - apply lookup_take_ge. lia.
Qed.

(** The loop breaks on an empty window and on nothing else. *)
Lemma iteration_break_iff (all_job_blocks : list item) (st : crawl) :
  fst (iteration all_job_blocks st) = Break <->
  window all_job_blocks (start_block_n st) = [].
Proof.
  unfold iteration.
  destruct (window all_job_blocks (start_block_n st)) as [| first others].
  - simpl. split; reflexivity.
  - split; [| discriminate].
    destruct (visit_all (first :: others) st) as [[u | e] st']; simpl;
      [| discriminate].
    destruct (scrolled _) as [u' | []]; simpl; discriminate.
Qed.

Lemma iteration_on_empty_window (all_job_blocks : list item) (st : crawl) :
  window all_job_blocks (start_block_n st) = [] ->
  iteration all_job_blocks st = (Break, st).
Proof. intros H. unfold iteration. rewrite H. reflexivity. Qed.

(** One turn of the outer loop moves the cursor by 21 at most. *)
Lemma iteration_cursor (all_job_blocks : list item) (st st' : crawl) (t : turn) :
  iteration all_job_blocks st = (t, st') ->
  (start_block_n st <= start_block_n st' <= start_block_n st + 21)%nat.
Proof.
  unfold iteration.
  pose proof (window_length all_job_blocks (start_block_n st)) as Hlen.
  destruct (window all_job_blocks (start_block_n st)) as [| first others] eqn:Hw.
  - intros [= <- <-]. lia.
  - destruct (visit_all (first :: others) st) as [r st1] eqn:Hv.
    apply visit_all_cursor in Hv.
    destruct r as [u | e].
    + destruct (scrolled _) as [u' | []]; intros [= <- <-]; simpl; lia.
    + intros [= <- <-]. lia.
Qed.

(** C10: the window of an outer iteration is the slice of the rendered
    items from the cursor to the cursor plus 21: its [i]-th element is
    the item at position cursor + [i] for [i] below 21, it holds
    [min 21 (rendered - cursor)] items, so 21 at most, one iteration
    moves the cursor by 21 at most, and the loop breaks exactly when the
    cursor has reached or passed the number of rendered items. *)
Theorem window_is_a_slice_of_21 :
  forall (all_job_blocks : list item) (st : crawl),
    (forall i : nat,
        window all_job_blocks (start_block_n st) !! i =
          if decide (i < 21)%nat
          then all_job_blocks !! (start_block_n st + i)%nat
          else None) /\
    length (window all_job_blocks (start_block_n st)) =
      Nat.min 21 (length all_job_blocks - start_block_n st) /\
    (length (window all_job_blocks (start_block_n st)) <= 21)%nat /\
    (forall (t : turn) (st' : crawl),
        iteration all_job_blocks st = (t, st') ->
        (start_block_n st <= start_block_n st' <= start_block_n st + 21)%nat) /\
    (fst (iteration all_job_blocks st) = Break <->
     (length all_job_blocks <= start_block_n st)%nat).
Proof.
  intros all st. split; [intros i; apply window_lookup |].
  split; [apply window_length |].
  split; [rewrite window_length; lia |].
  split.
  - intros t st' H. eapply iteration_cursor; eassumption.
  - rewrite iteration_break_iff. apply window_nil_iff.
Qed.

(** A run that has returned did so on an empty window, in the state
    that the turns before it had reached. *)
Lemma scroll_loop_finished (pages : list (list item)) (st st' : crawl) :
  scroll_loop pages st = (Finished, st') ->
  exists (earlier : list (list item)) (all_job_blocks : list item)
         (later : list (list item)),
    pages = (earlier ++ all_job_blocks :: later)%list /\
    scroll_loop earlier st = (Running, st') /\
    window all_job_blocks (start_block_n st') = [].
Proof.
  revert st. induction pages as [| all pages IH]; intros st; simpl.
  - discriminate.
  - destruct (iteration all st) as [[| |e] st1] eqn:Hit.
    + intros [= <-].
      assert (window all (start_block_n st) = []) as Hw
        by (apply iteration_break_iff; rewrite Hit; reflexivity).
      rewrite (iteration_on_empty_window _ _ Hw) in Hit. injection Hit as <-.
      exists [], all, pages. auto.
    + intros H. destruct (IH st1 H) as (earlier & all' & later & -> & Hrun & Hw).
      exists (all :: earlier), all', later. simpl. rewrite Hit. auto.
    + discriminate.
Qed.

(** While every window is visited and scrolled without exception, the
    loop goes on: on a page that renders [n] items, whatever [n], the
    crawl visits all of them before it returns. *)
Lemma crawl_visits_every_item (all_job_blocks : list item) (st : crawl) :
  Forall visitable all_job_blocks -> Forall scrollable all_job_blocks ->
  idle (db st) -> (start_block_n st <= length all_job_blocks)%nat ->
  exists (turns : nat) (st' : crawl),
    scroll_loop (replicate turns all_job_blocks) st = (Finished, st') /\
    start_block_n st' = length all_job_blocks.
Proof.
  intros Hvis Hscr.
  remember (length all_job_blocks - start_block_n st)%nat as d eqn:Hd.
  revert st Hd. induction (lt_wf d) as [d _ IH]. intros st Hd Hidle Hle.
  destruct (window all_job_blocks (start_block_n st)) as [| first others] eqn:Hw.
  - exists 1%nat, st. simpl. rewrite (iteration_on_empty_window _ _ Hw).
    apply window_nil_iff in Hw. split; [reflexivity | lia].
  - assert (Forall visitable (first :: others)) as Hvw.
    { rewrite <- Hw. unfold window. apply Forall_take, Forall_drop, Hvis. }
    destruct (visit_all_returns (first :: others) st Hvw Hidle)
      as (st1 & Hrun & Hidle1).
    pose proof (visit_all_cursor _ _ _ _ Hrun) as Hcur. cbv beta iota in Hcur.
    pose proof (window_length all_job_blocks (start_block_n st)) as Hlen.
    rewrite Hw in Hlen.
    assert (List.last (first :: others) first ∈ all_job_blocks) as Hlast.
    { assert (List.last (first :: others) first ∈ first :: others) as Hin.
      { apply list_elem_of_In. destruct (exists_last (l := first :: others))
          as (l' & a & Heq); [discriminate |].
        rewrite Heq, last_last. apply in_or_app. right. left. reflexivity. }
      assert (first :: others ⊆ all_job_blocks) as Hsub.
      { rewrite <- Hw. unfold window. intros x Hx.
        apply subseteq_take in Hx. apply subseteq_drop in Hx. exact Hx. }
      apply Hsub, Hin. }
    rewrite Forall_forall in Hscr. specialize (Hscr _ Hlast).
    assert (exists st2, iteration all_job_blocks st = (Continue, st2) /\
                        start_block_n st2 = start_block_n st1 /\
                        db st2 = db st1) as (st2 & Hit & Hcur2 & Hdb2).
    { unfold iteration. rewrite Hw, Hrun.
      destruct Hscr as [-> | ->]; eexists; (split; [reflexivity |]); auto. }
    cbn [length] in Hlen, Hcur.
    assert (idle (db st2)) as Hidle2 by (rewrite Hdb2; assumption).
    destruct (IH (length all_job_blocks - start_block_n st2)%nat ltac:(lia)
                 st2 eq_refl Hidle2 ltac:(lia))
      as (turns & st' & Hloop & Hend).
    exists (S turns), st'. simpl. rewrite Hit. auto.
Qed.

(** C8: the outer loop breaks exactly when the window at the cursor is
    empty; an empty window returns at once, with the state and its
    record of browser actions unchanged and the later answers of the
    page unread; a run that has returned did so on an empty window; and
    no count of items ends it before: on a page of any number of
    visitable items the crawl returns only after the cursor has passed
    them all. *)
Theorem crawl_ends_on_empty_window :
  (forall (all_job_blocks : list item) (st : crawl),
      fst (iteration all_job_blocks st) = Break <->
      window all_job_blocks (start_block_n st) = []) /\
  (forall (all_job_blocks : list item) (later : list (list item)) (st : crawl),
      window all_job_blocks (start_block_n st) = [] ->
      scroll_loop (all_job_blocks :: later) st = (Finished, st)) /\
  (forall (pages : list (list item)) (st st' : crawl),
      scroll_loop pages st = (Finished, st') ->
      exists (earlier : list (list item)) (all_job_blocks : list item)
             (later : list (list item)),
        pages = (earlier ++ all_job_blocks :: later)%list /\
        scroll_loop earlier st = (Running, st') /\
        window all_job_blocks (start_block_n st') = []) /\
  (forall (all_job_blocks : list item) (c : conn),
      Forall visitable all_job_blocks -> Forall scrollable all_job_blocks ->
      idle c ->
      exists (turns : nat) (st' : crawl),
        scroll_and_load_jobs (Ok tt) (replicate turns all_job_blocks) c
          = (Finished, st') /\
        start_block_n st' = length all_job_blocks).
Proof.
  split; [exact iteration_break_iff |].
  split; [| split; [exact scroll_loop_finished |]].
  - intros all later st Hw. simpl.
    rewrite (iteration_on_empty_window _ _ Hw). reflexivity.
  - intros all c Hvis Hscr Hidle. unfold scroll_and_load_jobs.
    apply crawl_visits_every_item; simpl; auto with lia.
Qed.

(** ** Session controller *)

Lemma login_step_settled (polls : list poll) (st : login_state) :
  (forall n, st <> Polling n) -> fold_left login_step polls st = st.
Proof.
  intros Hst. induction polls as [| p polls IH]; simpl; [reflexivity |].
  destruct st as [n | n | e n]; [destruct (Hst n); reflexivity | exact IH | exact IH].
Qed.

Lemma login_timeouts_from (n k : nat) :
  fold_left login_step (replicate n timed_out) (Polling k) = Polling (k + n).
Proof.
  revert k. induction n as [| n IH]; intros k; simpl.
  - f_equal. lia.
  - rewrite IH. f_equal. lia.
Qed.

(** The polls that the loop has read: timeouts, one for each prompt,
    up to the poll that settled it. *)
Lemma login_loop_history (polls : list poll) (k : nat) :
  match fold_left login_step polls (Polling k) with
  | Polling n => polls = replicate (n - k) timed_out /\ (k <= n)%nat
  | LoggedIn n =>
      (exists u later,
          polls = (replicate (n - k) timed_out ++ Ok u :: later)%list)
      /\ (k <= n)%nat
  | LoginRaised e n =>
      (exists later,
          polls = (replicate (n - k) timed_out ++ Raise e :: later)%list)
      /\ e <> TimeoutException /\ (k <= n)%nat
  end.
Proof.
  revert k. induction polls as [| p polls IH]; intros k.
  - simpl. rewrite Nat.sub_diag. auto.
  - assert (forall e, e <> TimeoutException ->
              login_step (Polling k) (Raise e) = LoginRaised e k) as Hother
      by (intros e He; destruct e; try reflexivity; destruct He; reflexivity).
    destruct p as [u | e]; cbn [fold_left].
    + change (login_step (Polling k) (Ok u)) with (LoggedIn k).
      rewrite login_step_settled by discriminate. rewrite Nat.sub_diag. eauto.
    + destruct (decide (e = TimeoutException)) as [-> | He].
      * change (login_step (Polling k) (Raise TimeoutException))
          with (Polling (S k)).
        specialize (IH (S k)).
        destruct (fold_left login_step polls (Polling (S k))) as [n | n | e n].
        -- destruct IH as [-> Hle]. split; [| lia].
           replace (n - k)%nat with (S (n - S k)) by lia. reflexivity.
        -- destruct IH as [(u & later & ->) Hle]. split; [| lia]. exists u, later.
           replace (n - k)%nat with (S (n - S k)) by lia. reflexivity.
        -- destruct IH as [[later ->] [He Hle]]. split; [| split; [exact He | lia]].
           exists later.
           replace (n - k)%nat with (S (n - S k)) by lia. reflexivity.
      * rewrite (Hother e He).
        rewrite login_step_settled by discriminate. rewrite Nat.sub_diag. eauto.
Qed.

(** Once the login page is loaded, the form has its two inputs and the
    button is clicked, [login] is its retry loop. *)
Lemma login_enters_loop (inputs : list node) (polls : list poll) :
  (2 <= length inputs)%nat ->
  login (Ok tt) inputs (Ok tt) polls = login_loop polls.
Proof.
  intros Hlen. unfold login, index.
  destruct inputs as [| i0 [| i1 rest]]; simpl in Hlen; [lia | lia |].
  reflexivity.
Qed.

(** C9: [login] returns only after a poll has found the marker of the
    authenticated page, every poll before it having timed out and been
    followed by one prompt.  Once the credentials are submitted,
    [login] is still polling as long as the polls time out, whatever
    their number, and has prompted once for each; it returns at the
    first poll that finds the marker; and an exception leaves it only
    when a poll raises something other than its timeout. *)
Theorem login_waits_for_marker :
  (forall (page_ready : result unit) (inputs : list node) (clicked : result unit)
          (polls : list poll) (n : nat),
      login page_ready inputs clicked polls = LoggedIn n ->
      exists u later,
        polls = (replicate n timed_out ++ Ok u :: later)%list) /\
  (forall inputs : list node,
      (2 <= length inputs)%nat ->
      (forall n : nat,
          login (Ok tt) inputs (Ok tt) (replicate n timed_out) = Polling n) /\
      (forall (n : nat) (later : list poll),
          login (Ok tt) inputs (Ok tt)
                (replicate n timed_out ++ Ok tt :: later) = LoggedIn n) /\
      (forall (polls : list poll) (e : pyexn) (n : nat),
          login (Ok tt) inputs (Ok tt) polls = LoginRaised e n ->
          e <> TimeoutException /\
          exists later,
            polls = (replicate n timed_out ++ Raise e :: later)%list)).
Proof.
  split.
  - intros page inputs clicked polls n. unfold login.
    destruct (rbind page _) as [u | e]; [| discriminate].
    unfold login_loop. intros H. pose proof (login_loop_history polls 0) as Hh.
    rewrite H in Hh. rewrite Nat.sub_0_r in Hh. apply Hh.
  - intros inputs Hlen. split; [| split].
    + intros n. rewrite (login_enters_loop inputs _ Hlen).
      apply (login_timeouts_from n 0).
    + intros n later. rewrite (login_enters_loop inputs _ Hlen).
      unfold login_loop. rewrite fold_left_app, login_timeouts_from. simpl.
      apply login_step_settled. discriminate.
    + intros polls e n. rewrite (login_enters_loop inputs _ Hlen).
      unfold login_loop. intros H.
      pose proof (login_loop_history polls 0) as Hh.
      rewrite H in Hh. rewrite Nat.sub_0_r in Hh. tauto.
Qed.

(** Three timeouts, three prompts, then the marker. *)
Lemma login_waits_for_marker_witness :
  login (Ok tt) [sample_offer; sample_offer] (Ok tt)
        (replicate 3 timed_out ++ [Ok tt]) = LoggedIn 3 /\
  login (Ok tt) [sample_offer; sample_offer] (Ok tt)
        (replicate 3 timed_out) = Polling 3.
Proof.
  destruct (proj2 login_waits_for_marker [sample_offer; sample_offer])
    as (Hpolling & Hlogged & _); [simpl; lia |].
  split; [apply (Hlogged 3%nat []) | apply (Hpolling 3%nat)].
Defined.

(* ===================================================================== *)
(** * Further properties *)
(* ===================================================================== *)

(** ** Funding normaliser *)

(** X1: whenever [extract_funding] returns an amount, the amount is not
    negative: a minus sign in the heading is dropped with the other
    punctuation before the text is read. *)
Theorem extract_funding_nonneg (block : node) (n : Z) :
  extract_funding block = Ok (Some n) -> 0 <= n.
Proof.
  unfold extract_funding.
  destruct (select sel_profile_h1 (root block)) as [| h0 hs]; [discriminate |].
  destruct (index (h0 :: hs) 1) as [h |]; simpl; [| discriminate].
  apply normalize_nonneg.
Qed.

Lemma extract_funding_nonneg_witness :
  extract_funding (detail_pane [] ["Seed"; "-$2.5M"; "2019"]) = Ok (Some 2500000)
  /\ 0 <= 2500000.
Proof.
  assert (extract_funding (detail_pane [] ["Seed"; "-$2.5M"; "2019"])
          = Ok (Some 2500000)) as H by (vm_compute; reflexivity).
  split; [exact H | exact (extract_funding_nonneg _ _ H)].
Defined.

(** X2: the exceptions that leave [extract_funding].  A profile block
    with a single heading always raises [IndexError], and
    [IndexError] is raised in no other case; any other exception is a
    [ValueError] or an [OverflowError], out of the conversion of the
    second heading of a block with two headings or more. *)
Theorem extract_funding_raises (block : node) :
  (length (select sel_profile_h1 (root block)) = 1%nat <->
   extract_funding block = Raise IndexError) /\
  (forall e : pyexn,
      extract_funding block = Raise e ->
      e = IndexError \/
      ((e = ValueError \/ e = OverflowError) /\
       (2 <= length (select sel_profile_h1 (root block)))%nat)).
Proof.
  unfold extract_funding.
  destruct (select sel_profile_h1 (root block)) as [| h0 [| h1 hs]].
  - split; [split; discriminate | discriminate].
  - simpl. split; [split; reflexivity |]. intros e [= <-]. left. reflexivity.
  - cbn [index lookup list_lookup rbind length].
    split.
    + split; [discriminate |]. intros H.
      apply normalize_raises in H as [H | H]; discriminate H.
    + intros e H. right. split; [eapply normalize_raises; eassumption | lia].
Qed.

Lemma extract_funding_raises_witness :
  extract_funding (detail_pane [] ["Seed"]) = Raise IndexError /\
  (OverflowError = IndexError \/
   ((OverflowError = ValueError \/ OverflowError = OverflowError) /\
    (2 <= length (select sel_profile_h1
                    (root (detail_pane [] ["Seed"; "1e999K"; "2019"]))))%nat)).
Proof.
  split.
  - apply (proj1 (extract_funding_raises (detail_pane [] ["Seed"]))).
    vm_compute. reflexivity.
  - apply (proj2 (extract_funding_raises
                    (detail_pane [] ["Seed"; "1e999K"; "2019"]))).
    vm_compute. reflexivity.
Defined.

(** *** Texts without a unit suffix *)

Lemma lstrip_nothing (sp : ascii -> bool) (s : string) :
  all_chars (fun c => negb (sp c)) s = true -> lstrip sp s = s.
Proof.
  destruct s as [| c s]; simpl; [reflexivity |].
  intros H. apply andb_prop in H as [Hc _]. apply negb_true_iff in Hc.
  rewrite Hc. reflexivity.
Qed.

Lemma rstrip_nothing (sp : ascii -> bool) (s : string) :
  all_chars (fun c => negb (sp c)) s = true -> rstrip sp s = s.
Proof.
  induction s as [| c s IH]; simpl; [reflexivity |].
  intros H. apply andb_prop in H as [Hc Hs]. apply negb_true_iff in Hc.
  rewrite (IH Hs), Hc. destruct s; reflexivity.
Qed.









(** Punctuation between digits is dropped, a decimal point is not. *)
Example normalize_unsuffixed_samples :
  normalize "$1,000" = Ok (Some 1000) /\
  normalize "12-34" = Ok (Some 1234) /\
  normalize "1000.5" = Ok None /\
  normalize "5m" = Ok None.
Proof. repeat split; vm_compute; reflexivity. Qed.

(** ** Identifier of a listing *)

Lemma hex_or_hyphen_not_slash (c : ascii) :
  is_hex_or_hyphen c = true -> negb (ascii_eqb c "/") = true.
Proof.
  destruct c as [[] [] [] [] [] [] [] []]; vm_compute; intros H;
    first [discriminate H | reflexivity].
Qed.

Lemma strip_slashes_token (tok : string) :
  token tok -> strip_slashes tok = tok.
Proof.
  intros [_ Hall]. unfold strip_slashes.
  assert (all_chars (fun c => negb (ascii_eqb c "/")) tok = true) as Hns
    by (eapply all_chars_weaken; [apply hex_or_hyphen_not_slash | exact Hall]).
  rewrite (lstrip_nothing _ _ Hns). apply (rstrip_nothing _ _ Hns).
Qed.

(** What [re.search] returns is the leftmost token between slashes. *)
Lemma search_id_leftmost (url tok : string) :
  search_id url = Some tok ->
  exists pre post : string,
    url = pre ++ "/" ++ tok ++ "/" ++ post /\ token tok /\
    forall pre' tok' post' : string,
      url = pre' ++ "/" ++ tok' ++ "/" ++ post' -> token tok' ->
      (String.length pre <= String.length pre')%nat /\
      (String.length pre' = String.length pre -> tok' = tok).
Proof.
  revert tok. induction url as [| c url IH]; intros tok.
  - discriminate.
  - rewrite search_id_cons.
    destruct (match_here (String c url)) as [t |] eqn:Hm.
    + intros [= ->]. destruct (match_here_sound _ _ Hm) as (post & Hs & Htok).
      exists EmptyString, post. split; [exact Hs |]. split; [exact Htok |].
      intros pre' tok' post' Hurl Htok'. split; [simpl; lia |].
      destruct pre' as [| c' pre']; [| discriminate].
      intros _. change (EmptyString ++ ?x) with x in Hurl.
      rewrite Hurl, (match_here_complete tok' post' Htok') in Hm. congruence.
    + intros H. destruct (IH tok H) as (pre & post & -> & Htok & Hleft).
      exists (String c pre), post. split; [reflexivity |]. split; [exact Htok |].
      intros pre' tok' post' Hurl Htok'.
      destruct pre' as [| c' pre'].
      * change (EmptyString ++ ?x) with x in Hurl.
        rewrite Hurl, (match_here_complete tok' post' Htok') in Hm. discriminate.
      * change (String c' pre' ++ ?x) with (String c' (pre' ++ x)) in Hurl.
        injection Hurl as _ Hurl.
        destruct (Hleft pre' tok' post' Hurl Htok') as [Hle Heq].
        split; [simpl; lia |]. simpl. intros Hlen. apply Heq. lia.
Qed.

(** X4: the [id] of an extracted record is the leftmost run of 36
    hexadecimal digits and hyphens that stands between two slashes of
    the URL, unchanged by the stripping of slashes. *)
Theorem extracted_id_is_leftmost_token (offer block : node) (url : string)
        (row : job_data) :
  build_job_data offer block url = Ok row ->
  token (id row) /\
  exists pre post : string,
    url = pre ++ "/" ++ id row ++ "/" ++ post /\
    forall pre' tok' post' : string,
      url = pre' ++ "/" ++ tok' ++ "/" ++ post' -> token tok' ->
      (String.length pre <= String.length pre')%nat /\
      (String.length pre' = String.length pre -> tok' = id row).
Proof.
  intros Hrow. unfold build_job_data in Hrow.
  destruct (search_id url) as [tok |] eqn:Hsearch; [| discriminate Hrow].
  cbn [deref rbind] in Hrow.
  repeat match type of Hrow with
         | rbind ?r _ = Ok _ => destruct r; simpl in Hrow; [| discriminate]
         end.
  injection Hrow as <-. cbn [id].
  destruct (search_id_leftmost url tok Hsearch) as (pre & post & Hurl & Htok & Hleft).
  rewrite (strip_slashes_token tok Htok). split; [exact Htok |].
  exists pre, post. split; assumption.
Qed.

Lemma extracted_id_is_leftmost_token_witness :
  exists row,
    build_job_data sample_offer (detail_pane ["Intern"] []) sample_url = Ok row /\
    id row = "3fa85f64-5717-4562-b3fc-2c963f66afa6" /\
    token (id row).
Proof.
  destruct (build_job_data sample_offer (detail_pane ["Intern"] []) sample_url)
    as [row | e] eqn:Hrow; [| vm_compute in Hrow; discriminate Hrow].
  exists row. split; [reflexivity |].
  split; [vm_compute in Hrow; injection Hrow as <-; reflexivity |].
  exact (proj1 (extracted_id_is_leftmost_token _ _ _ row Hrow)).
Defined.

(** ** Profile block *)

(** X5: a profile block with one or two headings cannot be stored:
    [grab_offer_info] raises, on the second or on the third heading it
    indexes or earlier, and leaves the connection as it was. *)
Theorem short_profile_raises (offer block : node) (url : string) (c : conn) :
  (1 <= length (select sel_profile_h1 (root block)) < 3)%nat ->
  exists e, grab_offer_info offer block url c = (Raise e, c).
Proof.
  intros Hlen. unfold grab_offer_info.
  destruct (build_job_data offer block url) as [row | e] eqn:Hrow; [| eauto].
  exfalso. apply build_job_data_profile in Hrow. unfold profile_fields in Hrow.
  destruct (select sel_profile_h1 (root block)) as [| h0 [| h1 [| h2 hs]]];
    simpl in Hlen, Hrow; first [lia | discriminate Hrow].
Qed.

Lemma short_profile_raises_witness :
  exists e,
    grab_offer_info sample_offer (detail_pane [] ["Seed"; "$1.5M"]) sample_url
      empty_conn = (Raise e, empty_conn).
Proof.
  apply (short_profile_raises sample_offer (detail_pane [] ["Seed"; "$1.5M"])
           sample_url empty_conn).
  vm_compute. lia.
Defined.

(** ** Store *)

Lemma store_row_keeps (t : gmap string job_data) (row : job_data)
      (k : string) (v : job_data) :
  t !! k = Some v -> store_row t row !! k = Some v.
Proof.
  intros Hk. unfold store_row. destruct (t !! id row) eqn:Hid; [exact Hk |].
  rewrite lookup_insert_ne; [exact Hk | congruence].
Qed.

Lemma store_row_has (t : gmap string job_data) (row : job_data) :
  is_Some (store_row t row !! id row).
Proof.
  unfold store_row. destruct (t !! id row) eqn:Hid; [rewrite Hid; eauto |].
  rewrite lookup_insert_eq. eauto.
Qed.



(** ** Visits of a window *)

Lemma append_store (row : job_data) (c : conn) :
  idle c ->
  exists o c',
    append row c = (Ok o, c') /\ table c' = store_row (table c) row /\ idle c'.
Proof.
  intros Hidle. unfold store_row.
  destruct (table c !! id row) as [old |] eqn:Hlook.
  - exists AlreadyExists, c. rewrite (append_duplicate row old c Hidle Hlook). auto.
  - eexists Inserted, _. rewrite (append_fresh row c Hidle Hlook).
    split; [reflexivity |]. split; [reflexivity | split; reflexivity].
Qed.

(** What a visit that returns has done. *)
Lemma visit_returned (it : item) (st st' : crawl) :
  idle (db st) -> visit it st = (Ok tt, st') ->
  exists row,
    item_row it = Some row /\ visitable it /\
    start_block_n st' = S (start_block_n st) /\
    table (db st') = store_row (table (db st)) row /\
    idle (db st') /\
    actions st' = (actions st ++ visit_actions (start_block_n st))%list.
Proof.
  intros Hidle. unfold visit, grab_offer_info, item_row, visitable.
  destruct (opened it) as [[block url] | e]; [| discriminate].
  destruct (build_job_data (offer it) block url) as [row | e] eqn:Hrow;
    [| discriminate].
  destruct (append_store row (db st) Hidle) as (o & c' & Happ & Htab & Hidle').
  cbn [db act]. rewrite Happ.
  destruct (closed it) as [[] | e]; [| discriminate].
  intros [= <-]. exists row. cbn.
  split; [reflexivity |].
  split; [exists block, url, row; auto |].
  split; [reflexivity |].
  split; [exact Htab |]. split; [exact Hidle' |].
  rewrite <- List.app_assoc. reflexivity.
Qed.

Lemma visit_all_returned (items : list item) (st st' : crawl) :
  idle (db st) -> visit_all items st = (Ok tt, st') ->
  Forall visitable items /\
  length (omap item_row items) = length items /\
  table (db st') = store_rows (omap item_row items) (table (db st)) /\
  idle (db st') /\
  actions st' =
    (actions st ++
     flat_map visit_actions (seq (start_block_n st) (length items)))%list.
Proof.
  revert st. induction items as [| it items IH]; intros st Hidle; cbn [visit_all].
  - intros [= <-]. cbn. rewrite app_nil_r. auto.
  - destruct (visit it st) as [[[] | e] st1] eqn:Hv; [| discriminate].
    intros Hrest.
    destruct (visit_returned it st st1 Hidle Hv)
      as (row & Hrow & Hvis & Hcur & Htab & Hidle1 & Hacts).
    destruct (IH st1 Hidle1 Hrest) as (Hall & Hlen & Htab' & Hidle' & Hacts').
    split; [constructor; assumption |].
    cbn [omap list_omap]. rewrite Hrow. cbn [length seq flat_map].
    split; [f_equal; exact Hlen |].
    split; [unfold store_rows in *; cbn [fold_left]; rewrite Htab', Htab; reflexivity |].
    split; [exact Hidle' |].
    rewrite Hacts', Hacts, Hcur, <- List.app_assoc. reflexivity.
Qed.

(** ** What a crawl leaves in the store *)

Lemma store_rows_cons (r : job_data) (rows : list job_data)
      (t : gmap string job_data) :
  store_rows (r :: rows) t = store_rows rows (store_row t r).
Proof. reflexivity. Qed.

Lemma store_rows_keeps (rows : list job_data) (t : gmap string job_data)
      (k : string) (v : job_data) :
  t !! k = Some v -> store_rows rows t !! k = Some v.
Proof.
  revert t. induction rows as [| row rows IH]; intros t Hk; [exact Hk |].
  rewrite store_rows_cons. apply IH, store_row_keeps, Hk.
Qed.

Lemma store_rows_has (rows : list job_data) (t : gmap string job_data)
      (row : job_data) :
  row ∈ rows -> is_Some (store_rows rows t !! id row).
Proof.
  revert t. induction rows as [| r rows IH]; intros t Hin.
  - apply elem_of_nil in Hin. contradiction.
  - rewrite store_rows_cons. apply elem_of_cons in Hin as [Heq | Hin].
    + subst r. destruct (store_row_has t row) as [v Hv].
      exists v. apply store_rows_keeps, Hv.
    + apply IH, Hin.
Qed.

Lemma store_rows_present (rows : list job_data) (t : gmap string job_data) :
  (forall row, row ∈ rows -> is_Some (t !! id row)) -> store_rows rows t = t.
Proof.
  induction rows as [| r rows IH]; intros Hall; [reflexivity |].
  rewrite store_rows_cons.
  assert (store_row t r = t) as ->.
  { unfold store_row. destruct (Hall r) as [v ->]; [left | reflexivity]. }
  apply IH. intros row Hin. apply Hall. right. exact Hin.
Qed.

Lemma store_rows_again (rows : list job_data) (t : gmap string job_data) :
  store_rows rows (store_rows rows t) = store_rows rows t.
Proof. apply store_rows_present. intros row Hin. apply store_rows_has, Hin. Qed.

Lemma idle_conn_eq (c1 c2 : conn) :
  idle c1 -> idle c2 -> table c1 = table c2 -> c1 = c2.
Proof.
  destruct c1 as [t1 p1 s1], c2 as [t2 p2 s2]. unfold idle. simpl.
  intros [-> ->] [-> ->] ->. reflexivity.
Qed.

(** X8: after a [for] loop that returned, the table is the old one with
    the records of the window added in order, each under its key only
    if the key was new; and running the loop once more over the same
    window, from the connection it left, returns again and leaves the
    connection exactly as it was. *)
Theorem visit_all_store (items : list item) (st st' : crawl) :
  idle (db st) -> visit_all items st = (Ok tt, st') ->
  table (db st') = store_rows (omap item_row items) (table (db st)) /\
  length (omap item_row items) = length items /\
  forall st2 : crawl,
    db st2 = db st' ->
    exists st3, visit_all items st2 = (Ok tt, st3) /\ db st3 = db st'.
Proof.
  intros Hidle Hrun.
  destruct (visit_all_returned items st st' Hidle Hrun)
    as (Hvis & Hlen & Htab & Hidle' & _).
  split; [exact Htab |]. split; [exact Hlen |].
  intros st2 Hdb.
  assert (idle (db st2)) as Hidle2 by (rewrite Hdb; exact Hidle').
  destruct (visit_all_returns items st2 Hvis Hidle2) as (st3 & Hrun3 & Hidle3).
  exists st3. split; [exact Hrun3 |].
  destruct (visit_all_returned items st2 st3 Hidle2 Hrun3) as (_ & _ & Htab3 & _).
  apply idle_conn_eq; [exact Hidle3 | exact Hidle' |].
  rewrite Htab3, Hdb, Htab. apply store_rows_again.
Qed.

Lemma visit_all_store_witness :
  exists st',
    visit_all [sample_item sample_url [] []; sample_item sample_url ["Intern"] []]
              (start_state empty_conn) = (Ok tt, st') /\
    table (db st') =
      store_rows
        (omap item_row
           [sample_item sample_url [] []; sample_item sample_url ["Intern"] []])
        (table (db (start_state empty_conn))).
Proof.
  destruct (visit_all
              [sample_item sample_url [] []; sample_item sample_url ["Intern"] []]
              (start_state empty_conn)) as [[[] | e] st'] eqn:Hrun;
    [| vm_compute in Hrun; discriminate Hrun].
  exists st'. split; [reflexivity |].
  exact (proj1 (visit_all_store _ (start_state empty_conn) _ empty_conn_idle Hrun)).
Defined.

Lemma scroll_loop_more (pages more : list (list item)) (st st' : crawl) :
  scroll_loop pages st = (Finished, st') ->
  scroll_loop (pages ++ more) st = (Finished, st').
Proof.
  revert st. induction pages as [| all pages IH]; intros st; cbn [scroll_loop app].
  - discriminate.
  - destruct (iteration all st) as [[| | e] st1]; [auto | apply IH | discriminate].
Qed.

Lemma drop_past_window (all_job_blocks : list item) (n : nat) :
  drop (n + length (window all_job_blocks n)) all_job_blocks =
  drop 21 (drop n all_job_blocks).
Proof.
  rewrite window_length, drop_drop.
  destruct (decide (21 <= length all_job_blocks - n)%nat) as [Hge | Hlt].
  - f_equal. lia.
  - rewrite !drop_ge by lia. reflexivity.
Qed.

(** On a page that does not change, the crawl returns with every
    record of the page offered to the table in order. *)
Lemma crawl_static (all_job_blocks : list item) (st : crawl) :
  Forall visitable all_job_blocks -> Forall scrollable all_job_blocks ->
  idle (db st) -> (start_block_n st <= length all_job_blocks)%nat ->
  exists (turns : nat) (st' : crawl),
    scroll_loop (replicate turns all_job_blocks) st = (Finished, st') /\
    table (db st') =
      store_rows (omap item_row (drop (start_block_n st) all_job_blocks))
                 (table (db st)) /\
    idle (db st').
Proof.
  intros Hvis Hscr.
  remember (length all_job_blocks - start_block_n st)%nat as d eqn:Hd.
  revert st Hd. induction (lt_wf d) as [d _ IH]. intros st Hd Hidle Hle.
  destruct (window all_job_blocks (start_block_n st)) as [| first others] eqn:Hw.
  - exists 1%nat, st. cbn [replicate scroll_loop].
    rewrite (iteration_on_empty_window _ _ Hw).
    apply window_nil_iff in Hw. rewrite drop_ge by exact Hw.
    split; [reflexivity |]. split; [reflexivity | exact Hidle].
  - assert (Forall visitable (first :: others)) as Hvw.
    { rewrite <- Hw. unfold window. apply Forall_take, Forall_drop, Hvis. }
    destruct (visit_all_returns (first :: others) st Hvw Hidle)
      as (st1 & Hrun & Hidle1).
    destruct (visit_all_returned _ _ _ Hidle Hrun) as (_ & _ & Htab1 & _ & _).
    pose proof (visit_all_cursor _ _ _ _ Hrun) as Hcur. cbv beta iota in Hcur.
    pose proof (window_length all_job_blocks (start_block_n st)) as Hlen.
    pose proof (drop_past_window all_job_blocks (start_block_n st)) as Hdrop.
    rewrite Hw in Hlen, Hdrop.
    assert (List.last (first :: others) first ∈ all_job_blocks) as Hlast.
    { assert (List.last (first :: others) first ∈ first :: others) as Hin.
      { apply list_elem_of_In. destruct (exists_last (l := first :: others))
          as (l' & a & Heq); [discriminate |].
        rewrite Heq, last_last. apply in_or_app. right. left. reflexivity. }
      assert (first :: others ⊆ all_job_blocks) as Hsub.
      { rewrite <- Hw. unfold window. intros x Hx.
        apply subseteq_take in Hx. apply subseteq_drop in Hx. exact Hx. }
      apply Hsub, Hin. }
    rewrite Forall_forall in Hscr. specialize (Hscr _ Hlast).
    assert (exists st2, iteration all_job_blocks st = (Continue, st2) /\
                        start_block_n st2 = start_block_n st1 /\
                        db st2 = db st1) as (st2 & Hit & Hcur2 & Hdb2).
    { unfold iteration. rewrite Hw, Hrun.
      destruct Hscr as [-> | ->]; eexists; (split; [reflexivity |]); auto. }
    cbn [length] in Hlen, Hcur.
    assert (idle (db st2)) as Hidle2 by (rewrite Hdb2; assumption).
    destruct (IH (length all_job_blocks - start_block_n st2)%nat ltac:(lia)
                 st2 eq_refl Hidle2 ltac:(lia))
      as (turns & st' & Hloop & Htab & Hidle').
    exists (S turns), st'. cbn [replicate scroll_loop]. rewrite Hit.
    split; [exact Hloop |]. split; [| exact Hidle'].
    cbn [length] in Hdrop.
    rewrite Htab, Hdb2, Htab1, Hcur2, Hcur, Hdrop.
    rewrite <- (take_drop 21 (drop (start_block_n st) all_job_blocks)) at 2.
    fold (window all_job_blocks (start_block_n st)). rewrite Hw.
    rewrite omap_app. unfold store_rows. rewrite fold_left_app. reflexivity.
Qed.

(** X9: two crawls in a row over a listing page that does not change
    leave the store as one crawl does.  The first one returns with
    every record of the page in the table (an earlier row of the same
    key being kept), and the second one returns with the connection
    exactly as the first one left it: no row is added, changed or
    lost. *)
Theorem crawl_twice_is_crawl_once (all_job_blocks : list item) (c : conn) :
  Forall visitable all_job_blocks -> Forall scrollable all_job_blocks ->
  idle c ->
  exists (turns : nat) (st1 st2 : crawl),
    scroll_and_load_jobs (Ok tt) (replicate turns all_job_blocks) c
      = (Finished, st1) /\
    table (db st1) = store_rows (omap item_row all_job_blocks) (table c) /\
    (forall row : job_data,
        row ∈ omap item_row all_job_blocks ->
        is_Some (table (db st1) !! id row)) /\
    scroll_and_load_jobs (Ok tt) (replicate turns all_job_blocks) (db st1)
      = (Finished, st2) /\
    db st2 = db st1.
Proof.
  intros Hvis Hscr Hidle. unfold scroll_and_load_jobs.
  destruct (crawl_static all_job_blocks (start_state c) Hvis Hscr Hidle)
    as (t1 & st1 & Hrun1 & Htab1 & Hidle1); [cbn; lia |].
  destruct (crawl_static all_job_blocks (start_state (db st1)) Hvis Hscr Hidle1)
    as (t2 & st2 & Hrun2 & Htab2 & Hidle2); [cbn; lia |].
  cbn [start_state start_block_n db drop] in Htab1, Htab2.
  exists (t1 + t2)%nat, st1, st2.
  split; [rewrite replicate_add; apply scroll_loop_more, Hrun1 |].
  split; [exact Htab1 |].
  split; [intros row Hin; rewrite Htab1; apply store_rows_has, Hin |].
  split; [rewrite Nat.add_comm, replicate_add; apply scroll_loop_more, Hrun2 |].
  apply idle_conn_eq; [exact Hidle2 | exact Hidle1 |].
  rewrite Htab2, Htab1. apply store_rows_again.
Qed.

Lemma crawl_twice_is_crawl_once_witness :
  exists (turns : nat) (st1 st2 : crawl),
    scroll_and_load_jobs (Ok tt)
      (replicate turns [sample_item sample_url [] ["Seed"; "$2B"; "2001"]])
      empty_conn = (Finished, st1) /\
    table (db st1) =
      store_rows (omap item_row [sample_item sample_url [] ["Seed"; "$2B"; "2001"]])
                 (table empty_conn) /\
    (forall row : job_data,
        row ∈ omap item_row [sample_item sample_url [] ["Seed"; "$2B"; "2001"]] ->
        is_Some (table (db st1) !! id row)) /\
    scroll_and_load_jobs (Ok tt)
      (replicate turns [sample_item sample_url [] ["Seed"; "$2B"; "2001"]])
      (db st1) = (Finished, st2) /\
    db st2 = db st1.
Proof.
  apply (crawl_twice_is_crawl_once
           [sample_item sample_url [] ["Seed"; "$2B"; "2001"]] empty_conn).
  - apply Forall_cons. split; [| apply Forall_nil; exact I].
    eexists _, _, _.
    split; [reflexivity | split; [vm_compute; reflexivity | reflexivity]].
  - apply Forall_cons. split; [left; reflexivity | apply Forall_nil; exact I].
  - split; reflexivity.
Defined.

(** ** A pane that does not close *)

(** X11: when the detail pane of an item does not close, the exception
    leaves the [for] loop after the record of the item has been stored
    and the cursor has passed it; the items after it are not
    visited. *)
Theorem close_failure_after_store (it : item) (row : job_data) (e : pyexn)
        (rest : list item) (st : crawl) :
  idle (db st) -> item_row it = Some row -> closed it = Raise e ->
  exists st',
    visit_all (it :: rest) st = (Raise e, st') /\
    table (db st') = store_row (table (db st)) row /\
    start_block_n st' = S (start_block_n st) /\
    actions st' = (actions st ++ visit_actions (start_block_n st))%list.
Proof.
  intros Hidle Hrow Hclosed. cbn [visit_all]. unfold visit, grab_offer_info.
  unfold item_row in Hrow.
  destruct (opened it) as [[block url] | e0]; [| discriminate Hrow].
  destruct (build_job_data (offer it) block url) as [row' | e0];
    [| discriminate Hrow].
  injection Hrow as ->.
  destruct (append_store row (db st) Hidle) as (o & c' & Happ & Htab & _).
  cbn [db act]. rewrite Happ, Hclosed. eexists. split; [reflexivity |].
  cbn. split; [exact Htab |]. split; [reflexivity |].
  rewrite <- List.app_assoc. reflexivity.
Qed.

Lemma close_failure_after_store_witness :
  exists st',
    visit_all
      ({| offer := sample_offer;
          opened := Ok (detail_pane [] [], sample_url);
          closed := Raise TimeoutException;
          scrolled := Ok tt |} :: [bare_item])
      (start_state empty_conn) = (Raise TimeoutException, st') /\
    start_block_n st' = 1%nat /\
    is_Some (table (db st') !! "3fa85f64-5717-4562-b3fc-2c963f66afa6").
Proof.
  destruct (item_row {| offer := sample_offer;
                        opened := Ok (detail_pane [] [], sample_url);
                        closed := Raise TimeoutException;
                        scrolled := Ok tt |}) as [row |] eqn:Hrow;
    [| vm_compute in Hrow; discriminate Hrow].
  destruct (close_failure_after_store _ row TimeoutException [bare_item]
              (start_state empty_conn) empty_conn_idle Hrow eq_refl)
    as (st' & Hrun & Htab & Hcur & _).
  exists st'. split; [exact Hrun |]. split; [exact Hcur |].
  rewrite Htab. vm_compute in Hrow. injection Hrow as <-.
  vm_compute. eauto.
Defined.

(** ** Rows are never lost *)

Lemma visit_keeps (it : item) (st st' : crawl) (r : result unit) :
  idle (db st) -> visit it st = (r, st') ->
  idle (db st') /\ keeps_rows (table (db st)) (table (db st')).
Proof.
  intros Hidle. unfold visit, grab_offer_info.
  assert (keeps_rows (table (db st)) (table (db st))) as Hsame
    by (intros k v Hk; exact Hk).
  destruct (opened it) as [[block url] | e]; [| intros [= <- <-]; auto].
  destruct (build_job_data (offer it) block url) as [row | e];
    [| intros [= <- <-]; auto].
  destruct (append_store row (db st) Hidle) as (o & c' & Happ & Htab & Hidle').
  cbn [db act]. rewrite Happ.
  assert (keeps_rows (table (db st)) (table c')) as Hkeep
    by (intros k v Hk; rewrite Htab; apply store_row_keeps, Hk).
  destruct (closed it); intros [= <- <-]; auto.
Qed.

Lemma visit_all_keeps (items : list item) (st st' : crawl) (r : result unit) :
  idle (db st) -> visit_all items st = (r, st') ->
  idle (db st') /\ keeps_rows (table (db st)) (table (db st')).
Proof.
  revert st. induction items as [| it items IH]; intros st Hidle; cbn [visit_all].
  - intros [= <- <-]. split; [exact Hidle | intros k v Hk; exact Hk].
  - destruct (visit it st) as [[u | e] st1] eqn:Hv;
      destruct (visit_keeps it st st1 _ Hidle Hv) as [Hidle1 Hkeep1].
    + intros Hrest. destruct (IH st1 Hidle1 Hrest) as [Hidle' Hkeep'].
      split; [exact Hidle' | intros k v Hk; apply Hkeep', Hkeep1, Hk].
    + intros [= <- <-]. auto.
Qed.

Lemma scroll_loop_keeps (pages : list (list item)) (st st' : crawl) (r : run_end) :
  idle (db st) -> scroll_loop pages st = (r, st') ->
  idle (db st') /\ keeps_rows (table (db st)) (table (db st')).
Proof.
  revert st. induction pages as [| all pages IH]; intros st Hidle; cbn [scroll_loop].
  - intros [= <- <-]. split; [exact Hidle | intros k v Hk; exact Hk].
  - assert (forall t st1, iteration all st = (t, st1) ->
              idle (db st1) /\ keeps_rows (table (db st)) (table (db st1))) as Hit.
    { intros t st1. unfold iteration.
      destruct (window all (start_block_n st)) as [| first others].
      - intros [= <- <-]. split; [exact Hidle | intros k v Hk; exact Hk].
      - destruct (visit_all (first :: others) st) as [[u | e] st2] eqn:Hv;
          pose proof (visit_all_keeps _ st st2 _ Hidle Hv) as Hk2.
        + destruct (scrolled _) as [u' | []]; intros [= <- <-]; exact Hk2.
        + intros [= <- <-]. exact Hk2. }
    destruct (iteration all st) as [[| | e] st1] eqn:Hi;
      destruct (Hit _ _ eq_refl) as [Hidle1 Hkeep1].
    + intros [= <- <-]. auto.
    + intros Hrest. destruct (IH st1 Hidle1 Hrest) as [Hidle' Hkeep'].
      split; [exact Hidle' | intros k v Hk; apply Hkeep', Hkeep1, Hk].
    + intros [= <- <-]. auto.
Qed.

Lemma crawl_rows_kept (page_ready : result unit) (pages : list (list item))
      (c : conn) :
  idle c ->
  idle (db (snd (scroll_and_load_jobs page_ready pages c))) /\
  keeps_rows (table c) (table (db (snd (scroll_and_load_jobs page_ready pages c)))).
Proof.
  intros Hidle. unfold scroll_and_load_jobs.
  destruct page_ready as [u | e];
    [| split; [exact Hidle | intros k v Hk; exact Hk]].
  destruct (scroll_loop pages (start_state c)) as [r st'] eqn:Hrun.
  apply (scroll_loop_keeps pages (start_state c) st' r Hidle Hrun).
Qed.

(** X12: the crawl only ever adds rows.  From a connection with no open
    transaction, whatever the page answers and however the run ends,
    by returning, by an exception or still looping, every row that the
    table held is still there unchanged, and no transaction is left
    open. *)
Theorem crawl_is_append_only (page_ready : result unit)
        (pages : list (list item)) (c : conn) :
  idle c ->
  idle (db (snd (scroll_and_load_jobs page_ready pages c))) /\
  forall (k : string) (v : job_data),
    table c !! k = Some v ->
    table (db (snd (scroll_and_load_jobs page_ready pages c))) !! k = Some v.
Proof.
  intros Hidle. unfold scroll_and_load_jobs.
  destruct page_ready as [u | e]; [| split; [exact Hidle | auto]].
  destruct (scroll_loop pages (start_state c)) as [r st'] eqn:Hrun.
  apply (scroll_loop_keeps pages (start_state c) st' r Hidle Hrun).
Qed.

Lemma crawl_is_append_only_witness :
  idle (db (snd (scroll_and_load_jobs (Ok tt)
                   [[sample_item sample_url [] []; bare_item]] stocked_conn))) /\
  forall (k : string) (v : job_data),
    table stocked_conn !! k = Some v ->
    table (db (snd (scroll_and_load_jobs (Ok tt)
                      [[sample_item sample_url [] []; bare_item]] stocked_conn)))
      !! k = Some v.
Proof.
  apply (crawl_is_append_only (Ok tt)
           [[sample_item sample_url [] []; bare_item]] stocked_conn).
  split; reflexivity.
Defined.

(** In that run the listing is met again with another title; the row
    of the earlier run stays. *)
Example rescraped_listing_is_not_updated :
  table (db (snd (scroll_and_load_jobs (Ok tt)
                    [[sample_item sample_url [] []; bare_item]] stocked_conn)))
    !! id old_row = Some old_row.
Proof.
  apply (crawl_rows_kept (Ok tt) [[sample_item sample_url [] []; bare_item]]
           stocked_conn); [split; reflexivity |].
  vm_compute. reflexivity.
Qed.

(** ** The script *)

(** X13: [main], once connected with no open transaction, leaves a
    connection with no open transaction that still holds every row it
    held; it has closed the connection unless [login] or the crawl
    still loops; it asks nothing of the listing page unless [login]
    returned; and when the browser cannot be started, the [finally]
    block closes the connection and then fails on the unbound
    [driver], so that the error of [setup_driver] is not the one
    reported. *)
Theorem main_keeps_rows_and_closes
        (c : conn) (started login_ready : result unit) (inputs : list node)
        (clicked : result unit) (polls : list poll)
        (listing_ready : result unit) (pages : list (list item))
        (quit : result unit) :
  idle c ->
  (exists c',
      left_conn (main (Ok c) started login_ready inputs clicked polls
                      listing_ready pages quit) = Some c' /\
      idle c' /\ keeps_rows (table c) (table c')) /\
  (ending (main (Ok c) started login_ready inputs clicked polls
                listing_ready pages quit) = NeverEnds \/
   conn_closed (main (Ok c) started login_ready inputs clicked polls
                     listing_ready pages quit) = true) /\
  (crawled (main (Ok c) started login_ready inputs clicked polls
                 listing_ready pages quit) <> [] ->
   exists n, login login_ready inputs clicked polls = LoggedIn n) /\
  (forall e, started = Raise e ->
     ending (main (Ok c) started login_ready inputs clicked polls
                  listing_ready pages quit) = UnboundDriver /\
     conn_closed (main (Ok c) started login_ready inputs clicked polls
                       listing_ready pages quit) = true).
Proof.
  intros Hidle.
  assert (keeps_rows (table c) (table c)) as Hsame by (intros k v Hk; exact Hk).
  assert (forall c0, idle c0 -> idle (rollback c0)) as Hroll
    by (intros c0 _; split; reflexivity).
  unfold main. destruct started as [u | e0].
  - destruct (login login_ready inputs clicked polls) as [n | n | e n] eqn:Hlogin.
    + cbn. split; [eauto |]. split; [auto |]. split; [congruence | discriminate].
    + destruct (scroll_and_load_jobs listing_ready pages c) as [r st] eqn:Hrun.
      pose proof (crawl_rows_kept listing_ready pages c Hidle) as Hkept.
      rewrite Hrun in Hkept. cbn [snd] in Hkept. destruct Hkept as [Hidle' Hkeep].
      destruct r as [| e |]; cbn.
      * split; [exists (rollback (db st)); auto |]. split; [auto |].
        split; [eauto | discriminate].
      * split; [exists (rollback (db st)); auto |]. split; [auto |].
        split; [eauto | discriminate].
      * split; [eauto |]. split; [auto |]. split; [eauto | discriminate].
    + cbn. split; [exists (rollback c); auto |]. split; [auto |].
      split; [congruence | discriminate].
  - cbn. split; [exists (rollback c); auto |]. split; [auto |].
    split; [congruence | auto].
Qed.

Lemma main_keeps_rows_and_closes_witness :
  (exists c',
      left_conn (main (Ok stocked_conn) (Raise WebDriverException) (Ok tt) []
                      (Ok tt) [] (Ok tt) [] (Ok tt)) = Some c' /\
      idle c' /\ keeps_rows (table stocked_conn) (table c')) /\
  (ending (main (Ok stocked_conn) (Raise WebDriverException) (Ok tt) []
                (Ok tt) [] (Ok tt) [] (Ok tt)) = NeverEnds \/
   conn_closed (main (Ok stocked_conn) (Raise WebDriverException) (Ok tt) []
                     (Ok tt) [] (Ok tt) [] (Ok tt)) = true) /\
  (crawled (main (Ok stocked_conn) (Raise WebDriverException) (Ok tt) []
                 (Ok tt) [] (Ok tt) [] (Ok tt)) <> [] ->
   exists n, login (Ok tt) [] (Ok tt) [] = LoggedIn n) /\
  (forall e, @Raise unit WebDriverException = Raise e ->
     ending (main (Ok stocked_conn) (Raise WebDriverException) (Ok tt) []
                  (Ok tt) [] (Ok tt) [] (Ok tt)) = UnboundDriver /\
     conn_closed (main (Ok stocked_conn) (Raise WebDriverException) (Ok tt) []
                       (Ok tt) [] (Ok tt) [] (Ok tt)) = true).
Proof.
  apply (main_keeps_rows_and_closes stocked_conn (Raise WebDriverException)
           (Ok tt) [] (Ok tt) [] (Ok tt) [] (Ok tt)).
  split; reflexivity.
Defined.

(** ** Other blocks that the extractor needs *)

(** X14: besides the identifier and the two containers of the
    specification, the extractor needs the three texts of the summary
    block, the paragraph of the employee count and a website link with
    an [href]: when one of them is missing, [grab_offer_info] raises
    and leaves the connection as it was. *)
Theorem missing_block_raises (offer block : node) (url : string) (c : conn) :
  select (css "h3" []) (root offer) = [] \/
  select (css "h4" []) (root offer) = [] \/
  select (css "p" []) (root offer) = [] \/
  select sel_employees (root block) = [] \/
  (forall v, subscript (select_one sel_website (root block)) "href" <> Ok v) ->
  exists e, grab_offer_info offer block url c = (Raise e, c).
Proof.
  intros Hmiss. unfold grab_offer_info.
  destruct (build_job_data offer block url) as [row | e] eqn:Hrow; [| eauto].
  exfalso. unfold build_job_data in Hrow.
  repeat match type of Hrow with
         | rbind ?r _ = Ok _ =>
             let E := fresh "E" in
             destruct r eqn:E; simpl in Hrow; [| discriminate]
         end.
  unfold find_element_text, select_one in *.
  destruct Hmiss as [H | [H | [H | [H | H]]]].
  - rewrite H in E0. discriminate E0.
  - rewrite H in E1. discriminate E1.
  - rewrite H in E2. discriminate E2.
  - rewrite H in E5. discriminate E5.
  - exact (H _ eq_refl).
Qed.

Lemma missing_block_raises_witness :
  exists e,
    grab_offer_info (Elem "div" [] [] [Elem "h3" [] [] [Text "Intern"]])
                    (detail_pane [] []) sample_url empty_conn
    = (Raise e, empty_conn).
Proof.
  apply (missing_block_raises (Elem "div" [] [] [Elem "h3" [] [] [Text "Intern"]])
           (detail_pane [] []) sample_url empty_conn).
  right. left. vm_compute. reflexivity.
Defined.
